(** * Book tracker: the listing aggregator and its scheduled jobs

    A shallow embedding of [functions/src/index.ts]: the two source
    connectors ([searchCraigslist], [searchReddit]), the aggregator
    ([searchAllPlatforms]), the daily batch job ([dailyBookSearch]), the
    two callable operations ([searchBook], [markNotificationRead]) and the
    weekly retention sweep ([cleanupOldNotifications]).

    Conventions of the embedding.
    - A JavaScript string is a [string] of 8-bit code units.
    - A promise that may reject is a computation in the monad [M]: it
      threads the [World] (clock, document collections, sent mail, the
      trace of calls made) and ends in [Ok v] or [Throw e].
    - What the outside world answers (HTTP bodies after parsing, whether
      the mail transport accepts a message, how long a call takes, the
      [Date] library, the ids Firestore generates) is read from an [Env].
    - The document store is modelled by its document semantics: [update]
      fails exactly when the document does not exist, a batch commits all
      its writes at once.
    - [Promise.all] keeps the order of its promises; the model runs them
      one after the other.
    - The data of a call to [searchBook] is an object or absent ([null],
      [undefined]). The web client's [doc(db, 'books', id)] reads [id] as a
      path, as the SDK does.
    - Left out: the text of the URLs and of the HTML mail, the console
      messages' interpolated values, and fields of stored documents that
      the functions never read. *)

From Stdlib Require Import ZArith Ascii.
From Stdlib Require String.
From stdpp Require Import base option list strings gmap sorting.

Local Open Scope Z_scope.

(** ** JavaScript strings *)

Module JS.

(** [s.startsWith(p)] *)
Fixpoint startsWith (s p : string) {struct p} : bool :=
  match p, s with
  | EmptyString, _ => true
  | String a p', String b s' => if Ascii.eqb a b then startsWith s' p' else false
  | String _ _, EmptyString => false
  end.

(** [s.includes(sub)] *)
Fixpoint includes (s sub : string) : bool :=
  if startsWith s sub then true
  else match s with
       | EmptyString => false
       | String _ s' => includes s' sub
       end.

(** The lower-case form of a code unit below 256: the letters A to Z, and
    the Latin-1 capitals (192 to 222, the sign at 215 apart). *)
Definition lower_char (c : ascii) : ascii :=
  let n := N_of_ascii c in
  if ((65 <=? n) && (n <=? 90) || (192 <=? n) && (n <=? 222) && negb (n =? 215))%N
  then ascii_of_N (n + 32)
  else c.

(** [s.toLowerCase()] on 8-bit code units *)
Fixpoint toLowerCase (s : string) : string :=
  match s with
  | EmptyString => EmptyString
  | String c s' => String (lower_char c) (toLowerCase s')
  end.

(** [s.split(sep)] for a one-character separator; [''.split(' ')] is
    [['']], and two separators in a row give an empty piece. *)
Fixpoint split (sep : ascii) (s : string) : list string :=
  match s with
  | EmptyString => [EmptyString]
  | String c s' =>
      if Ascii.eqb c sep then EmptyString :: split sep s'
      else match split sep s' with
           | w :: ws => String c w :: ws
           | [] => [String c EmptyString]
           end
  end.

(** [pieces.join(sep)] *)
Fixpoint join (sep : string) (pieces : list string) : string :=
  match pieces with
  | [] => EmptyString
  | [w] => w
  | w :: ws => w +:+ sep +:+ join sep ws
  end.

(** White space as [String.prototype.trim] sees it, among 8-bit units. *)
Definition is_space (c : ascii) : bool :=
  let n := N_of_ascii c in
  (((9 <=? n) && (n <=? 13)) || (n =? 32) || (n =? 160))%N.

Fixpoint trimStart (s : string) : string :=
  match s with
  | EmptyString => EmptyString
  | String c s' => if is_space c then trimStart s' else s
  end.

Fixpoint trimEnd (s : string) : string :=
  match s with
  | EmptyString => EmptyString
  | String c s' =>
      match trimEnd s' with
      | EmptyString => if is_space c then EmptyString else String c EmptyString
      | t => String c t
      end
  end.

(** [s.trim()] *)
Definition trim (s : string) : string := trimEnd (trimStart s).

(** Truthiness of a string that may be [undefined]: [undefined] and
    [''] are falsy. *)
Definition truthy (o : option string) : bool :=
  match o with
  | Some (String _ _) => true
  | _ => false
  end.

(** [o || d] on such a value *)
Definition or_else (o : option string) (d : string) : string :=
  match o with
  | Some (String c s) => String c s
  | _ => d
  end.

(** [arr.findIndex(p)], [-1] when no element satisfies [p]. *)
Fixpoint findIndex_from {A} (p : A → bool) (i : Z) (l : list A) : Z :=
  match l with
  | [] => -1
  | x :: l' => if p x then i else findIndex_from p (i + 1) l'
  end.

Definition findIndex {A} (p : A → bool) (l : list A) : Z := findIndex_from p 0 l.

(** [arr.filter((x, index) => p(x, index))] *)
Fixpoint filter_from {A} (p : A → Z → bool) (i : Z) (l : list A) : list A :=
  match l with
  | [] => []
  | x :: l' => if p x i then x :: filter_from p (i + 1) l' else filter_from p (i + 1) l'
  end.

Definition filter_idx {A} (p : A → Z → bool) (l : list A) : list A := filter_from p 0 l.

(** [arr.slice(0, n)] *)
Definition slice0 {A} (n : nat) (l : list A) : list A := take n l.

End JS.

(** ** The result model *)

Record SearchResult := mkSearchResult {
  title : string;
  price : string;
  source : string;
  condition : option string;
  link : string;
  seller : option string
}.

#[global] Instance SearchResult_eq_dec : EqDecision SearchResult.
Proof. solve_decision. Defined.

(** The duplicate filter shared by [searchAllPlatforms] and [searchReddit]:
    [self.filter((result, index, self) =>
       index === self.findIndex(r => r.link === result.link))] *)
Definition uniqueByLink (self : list SearchResult) : list SearchResult :=
  JS.filter_idx
    (λ result index,
       Z.eqb index (JS.findIndex (λ r, String.eqb (link r) (link result)) self))
    self.

(** The same list described by what has been seen so far: an entry is kept
    unless an earlier entry carries its link. *)
Fixpoint keepFirstPerLink (seen : list string) (l : list SearchResult) : list SearchResult :=
  match l with
  | [] => []
  | x :: l' =>
      if bool_decide (link x ∈ seen) then keepFirstPerLink seen l'
      else x :: keepFirstPerLink (link x :: seen) l'
  end.

(** ** Exceptions, the world and the environment *)

Inductive Error :=
  | NetworkError            (* axios rejects: timeout, DNS, HTTP status *)
  | TypeError               (* property read on [undefined] *)
  | MailError               (* the mail transport rejects *)
  | NotFound                (* Firestore: no document to update *)
  | InvalidArgument         (* Firestore: not a document path *)
  | HttpsError (code message : string).

Inductive Exc (A : Type) :=
  | Ok (a : A)
  | Throw (e : Error).
Arguments Ok {A} a.
Arguments Throw {A} e.

(** One row of [$('.result-row')]: the texts and the [href] that
    [searchCraigslist] reads from it, before trimming. *)
Record Row := mkRow {
  result_title : string;            (* .find('.result-title').text() *)
  result_price : string;            (* .find('.result-price').text() *)
  result_href : option string;      (* .find('.result-title').attr('href') *)
  result_hood : string              (* .find('.result-hood').text() *)
}.

(** [post.data] of one child of a Reddit listing *)
Record PostData := mkPostData {
  pd_title : string;
  pd_selftext : option string;
  pd_over_18 : bool;
  pd_subreddit_type : string;
  pd_subreddit : string;
  pd_permalink : string;
  pd_author : string
}.

(** A child of the listing; [post.data] may be missing. *)
Record Post := mkPost { post_data : option PostData }.

(** [response.data?.data?.children], [None] when the chain is falsy. *)
Record RedditBody := mkRedditBody { children : option (list Post) }.

Record User := mkUser {
  email : string;
  displayName : string;
  notifications : option bool
}.

(** A document of the [books] collection; its id is the key it is stored
    under. *)
Record Book := mkBook {
  book_title : string;
  book_author : option string;
  book_userId : string;
  lastSearched : option string
}.

(** A document of the [notifications] collection. *)
Record Notification := mkNotification {
  n_userId : string;
  n_bookTitle : string;
  n_title : string;
  n_price : string;
  n_source : string;
  n_link : string;
  n_condition : option string;      (* [None] is [null] *)
  n_seller : option string;
  n_date : string;
  n_read : bool;
  n_createdAt : Z;
  n_readAt : option Z
}.

Record Mail := mkMail {
  mail_to : string;
  mail_name : string;
  mail_bookTitle : string;
  mail_results : list SearchResult
}.

(** The calls the program makes, in the order it makes them.
    [EvAggregator] marks each entry into [searchAllPlatforms]; console
    output is kept without its interpolated values. *)
Inductive Event :=
  | EvAggregator (bookTitle : string) (author : option string)
  | EvHttpCraigslist (searchQuery : string)
  | EvHttpReddit (term : string)
  | EvSleep (ms : Z)
  | EvSendMail (m : Mail)
  | EvBatchCommit (writes : nat)
  | EvUpdateBook (id lastSearched : string)
  | EvUpdateNotification (id : string)
  | EvQuery (collection : string)
  | EvLog (msg : string)
  | EvError (msg : string).

Record World := mkWorld {
  clock : Z;                               (* what [Date.now()] reads *)
  users : gmap string User;
  books : gmap string Book;
  notifs : gmap string Notification;
  outbox : list Mail;                      (* mail the transport accepted *)
  trace : list Event;
  next_id : nat                            (* auto-ids handed out so far *)
}.

Record Env := mkEnv {
  craigslist_rows : Z → string → Exc (list Row);   (* GET + cheerio, at a time, for a query *)
  reddit_json : Z → string → Exc RedditBody;       (* GET search.json, at a time, for a term *)
  smtp_accepts : Z → Mail → bool;
  latency : Event → Z;                             (* how long the call takes *)
  Date_parse : string → option Z;                  (* [new Date(s)], [None] is Invalid Date *)
  toISOString : Z → string;
  thirtyDaysBefore : Z → Z;                        (* [d.setDate(d.getDate() - 30)] *)
  auto_id : nat → string                           (* [collection.doc()] *)
}.

(** Computations: state that survives a throw, as in JavaScript. *)
Definition M (A : Type) : Type := World → Exc A * World.

Definition ret {A} (a : A) : M A := λ w, (Ok a, w).

Definition throw {A} (e : Error) : M A := λ w, (Throw e, w).

Definition bind {A B} (m : M A) (k : A → M B) : M B :=
  λ w, match m w with
       | (Ok a, w') => k a w'
       | (Throw e, w') => (Throw e, w')
       end.

(** [try { m } catch (error) { h error }] *)
Definition try_catch {A} (m : M A) (h : Error → M A) : M A :=
  λ w, match m w with
       | (Ok a, w') => (Ok a, w')
       | (Throw e, w') => h e w'
       end.

Declare Scope m_scope.
Delimit Scope m_scope with M.
Notation "'let*' x := m 'in' k" := (bind m (λ x, k))
  (at level 10, x name, m at level 100, k at level 200) : m_scope.
Notation "m ;;; k" := (bind m (λ _, k))
  (at level 100, k at level 200, right associativity) : m_scope.
Local Open Scope m_scope.

Definition lift {A} (r : Exc A) : M A := λ w, (r, w).

Definition set_clock (t : Z) (w : World) : World :=
  mkWorld t (users w) (books w) (notifs w) (outbox w) (trace w) (next_id w).
Definition set_books (b : gmap string Book) (w : World) : World :=
  mkWorld (clock w) (users w) b (notifs w) (outbox w) (trace w) (next_id w).
Definition set_notifs (n : gmap string Notification) (w : World) : World :=
  mkWorld (clock w) (users w) (books w) n (outbox w) (trace w) (next_id w).
Definition set_outbox (o : list Mail) (w : World) : World :=
  mkWorld (clock w) (users w) (books w) (notifs w) o (trace w) (next_id w).
Definition set_trace (t : list Event) (w : World) : World :=
  mkWorld (clock w) (users w) (books w) (notifs w) (outbox w) t (next_id w).
Definition set_next_id (n : nat) (w : World) : World :=
  mkWorld (clock w) (users w) (books w) (notifs w) (outbox w) (trace w) n.

(** Record a call and let the time it takes pass. *)
Definition emit (env : Env) (ev : Event) : M unit :=
  λ w, (Ok tt, set_clock (clock w + Z.max 0 (latency env ev)) (set_trace (trace w ++ [ev]) w)).

(** [console.log] and [console.error] take no time. *)
Definition console (ev : Event) : M unit :=
  λ w, (Ok tt, set_trace (trace w ++ [ev]) w).

Definition Date_now : M Z := λ w, (Ok (clock w), w).

(** [await new Promise(resolve => setTimeout(resolve, ms))] *)
Definition sleep (ms : Z) : M unit :=
  λ w, (Ok tt, set_clock (clock w + ms) (set_trace (trace w ++ [EvSleep ms]) w)).

(** ** 4.1 Source connectors *)

(** The relevance test of [searchCraigslist] on the lower-cased title. *)
Definition relatesToBooks (searchQuery titleLower : string) : bool :=
  JS.includes titleLower "book"
  || JS.includes titleLower "novel"
  || JS.includes titleLower "textbook"
  || existsb (λ word, JS.includes titleLower (JS.toLowerCase word))
             (JS.split " "%char searchQuery).

(** The object pushed for a row that passes the test. *)
Definition craigslistResult (element : Row) : SearchResult :=
  let title := JS.trim (result_title element) in
  let price := JS.trim (result_price element) in
  let link := result_href element in
  let location := JS.trim (result_hood element) in
  {| title := title;
     price := JS.or_else (Some price) "Price not listed";
     source := "Craigslist" +:+ (if JS.truthy (Some location) then " " +:+ location else "");
     condition := Some "Used";
     link := match link with
             | Some l => if JS.startsWith l "http" then l else "https://craigslist.org" +:+ l
             | None => "https://craigslist.orgundefined"
             end;
     seller := None |}.

(** [$('.result-row').each((index, element) => ...)]: the callback
    returns [false], which ends the iteration, once [index >= 8]. *)
Fixpoint each_row (searchQuery : string) (index : Z) (rows : list Row)
    (results : list SearchResult) : list SearchResult :=
  match rows with
  | [] => results
  | element :: rest =>
      if 8 <=? index then results
      else
        let titleLower := JS.toLowerCase (JS.trim (result_title element)) in
        let results' :=
          if relatesToBooks searchQuery titleLower
          then results ++ [craigslistResult element]
          else results in
        each_row searchQuery (index + 1) rest results'
  end.

Definition axios_get_craigslist (env : Env) (searchQuery : string) : M (list Row) :=
  let* now := Date_now in
  emit env (EvHttpCraigslist searchQuery) ;;;
  lift (craigslist_rows env now searchQuery).

(** The [try] block of [searchCraigslist]. *)
Definition searchCraigslist_try (env : Env) (searchQuery : string) : M (list SearchResult) :=
  let* rows := axios_get_craigslist env searchQuery in
  ret (each_row searchQuery 0 rows []).

Definition searchCraigslist (env : Env) (searchQuery : string) : M (list SearchResult) :=
  try_catch
    (searchCraigslist_try env searchQuery)
    (λ error, console (EvError "Craigslist search error:") ;;; ret []).

Definition is_digit (c : ascii) : bool :=
  let n := N_of_ascii c in ((48 <=? n) && (n <=? 57))%N.

(** The longest run of digits at the front of [s], and what follows it. *)
Fixpoint span_digits (s : string) : string * string :=
  match s with
  | EmptyString => (EmptyString, EmptyString)
  | String c s' =>
      if is_digit c then let '(ds, rest) := span_digits s' in (String c ds, rest)
      else (EmptyString, s)
  end.

(** [\d+(?:\.\d{2})?] tried right after a dollar sign *)
Definition price_after_dollar (s : string) : option string :=
  let '(ds, rest) := span_digits s in
  match ds with
  | EmptyString => None
  | _ =>
      match rest with
      | String "."%char (String d1 (String d2 _)) =>
          if is_digit d1 && is_digit d2
          then Some (ds +:+ String "."%char (String d1 (String d2 EmptyString)))
          else Some ds
      | _ => Some ds
      end
  end.

(** Group 1 of the first match of [/\$(\d+(?:\.\d{2})?)/] in [s] *)
Fixpoint priceMatch (s : string) : option string :=
  match s with
  | EmptyString => None
  | String c s' =>
      if Ascii.eqb c "$"%char
      then match price_after_dollar s' with
           | Some p => Some p
           | None => priceMatch s'
           end
      else priceMatch s'
  end.

(** The condition under which [searchReddit] keeps a post. *)
Definition sellingPost (postData : PostData) : bool :=
  let title := pd_title postData in
  let text := JS.or_else (pd_selftext postData) "" in
  let combined := JS.toLowerCase (title +:+ " " +:+ text) in
  (JS.includes combined "for sale"
   || JS.includes combined "selling"
   || JS.includes combined "sale"
   || JS.includes combined "$")
  && negb (pd_over_18 postData)
  && String.eqb (pd_subreddit_type postData) "public".

Definition redditResult (postData : PostData) : SearchResult :=
  let title := pd_title postData in
  let text := JS.or_else (pd_selftext postData) "" in
  {| title := title;
     price := match priceMatch (title +:+ " " +:+ text) with
              | Some p => "$" +:+ p
              | None => "See post for price"
              end;
     source := "Reddit r/" +:+ pd_subreddit postData;
     condition := None;
     link := "https://reddit.com" +:+ pd_permalink postData;
     seller := Some ("/u/" +:+ pd_author postData) |}.

(** [children.forEach(post => ...)]: reading a field of a missing
    [post.data] throws. *)
Fixpoint forEach_post (posts : list Post) (results : list SearchResult)
    : Exc (list SearchResult) :=
  match posts with
  | [] => Ok results
  | post :: rest =>
      match post_data post with
      | None => Throw TypeError
      | Some postData =>
          forEach_post rest
            (if sellingPost postData then results ++ [redditResult postData] else results)
      end
  end.

Definition searchTerms (searchQuery : string) : list string :=
  [ searchQuery +:+ " for sale";
    "selling " +:+ searchQuery;
    searchQuery +:+ " book sale" ].

Definition axios_get_reddit (env : Env) (term : string) : M RedditBody :=
  let* now := Date_now in
  emit env (EvHttpReddit term) ;;;
  lift (reddit_json env now term).

(** [for (const term of searchTerms) { ... }] *)
Fixpoint for_terms (env : Env) (terms : list string) (results : list SearchResult)
    : M (list SearchResult) :=
  match terms with
  | [] => ret results
  | term :: rest =>
      let* response := axios_get_reddit env term in
      let* results' :=
        match children response with
        | Some posts => lift (forEach_post posts results)
        | None => ret results
        end in
      sleep 500 ;;;
      for_terms env rest results'
  end.

(** The [try] block of [searchReddit]. *)
Definition searchReddit_try (env : Env) (searchQuery : string) : M (list SearchResult) :=
  let* results := for_terms env (searchTerms searchQuery) [] in
  let uniqueResults := uniqueByLink results in
  ret (JS.slice0 5 uniqueResults).

Definition searchReddit (env : Env) (searchQuery : string) : M (list SearchResult) :=
  try_catch
    (searchReddit_try env searchQuery)
    (λ error, console (EvError "Reddit search error:") ;;; ret []).

(** ** 4.2 Aggregator *)

(** [p.catch(err => { console.error(label, err); return []; })] *)
Definition catch_empty (label : string) (p : M (list SearchResult)) : M (list SearchResult) :=
  try_catch p (λ err, console (EvError label) ;;; ret []).

(** [await Promise.all(ps)]: the values in the order of [ps]; the
    promises are run one after the other. *)
Fixpoint Promise_all {A} (ps : list (M A)) : M (list A) :=
  match ps with
  | [] => ret []
  | p :: ps' =>
      let* v := p in
      let* vs := Promise_all ps' in
      ret (v :: vs)
  end.

(** [author ? `${bookTitle} ${author}` : bookTitle] *)
Definition searchQueryOf (bookTitle : string) (author : option string) : string :=
  match author with
  | Some (String c a) => bookTitle +:+ " " +:+ String c a
  | _ => bookTitle
  end.

Definition searchAllPlatforms (env : Env) (bookTitle : string) (author : option string)
    : M (list SearchResult) :=
  console (EvAggregator bookTitle author) ;;;
  let searchQuery := searchQueryOf bookTitle author in
  let* results :=
    try_catch
      (let searchPromises :=
         [ catch_empty "Craigslist search failed:" (searchCraigslist env searchQuery);
           catch_empty "Reddit search failed:" (searchReddit env searchQuery) ] in
       let* allResults := Promise_all searchPromises in
       let flatResults := concat allResults in
       let uniqueResults := uniqueByLink flatResults in
       ret ([] ++ uniqueResults))
      (λ error, console (EvError "Error searching platforms:") ;;; ret []) in
  ret results.

(** ** The document store *)

(** A write queued in a batch. A [set] receives the server time when the
    batch commits ([FieldValue.serverTimestamp()]). *)
Inductive Write :=
  | WSet (id : string) (data : Z → Notification)
  | WDelete (id : string).

Definition apply_write (serverTime : Z) (m : gmap string Notification) (wr : Write)
    : gmap string Notification :=
  match wr with
  | WSet id data => <[id := data serverTime]> m
  | WDelete id => delete id m
  end.

(** [batch.commit()]: every write of the batch, at once. *)
Definition batch_commit (env : Env) (batch : list Write) : M unit :=
  emit env (EvBatchCommit (length batch)) ;;;
  (λ w, (Ok tt, set_notifs (foldl (apply_write (clock w)) (notifs w) batch) w)).

(** [db.collection('notifications').doc()]: a reference with a new id. *)
Definition new_doc_id (env : Env) : M string :=
  λ w, (Ok (auto_id env (next_id w)), set_next_id (S (next_id w)) w).

(** The document [b] after [update({ lastSearched: iso })]. *)
Definition with_lastSearched (b : Book) (iso : string) : Book :=
  mkBook (book_title b) (book_author b) (book_userId b) (Some iso).

(** [bookDoc.ref.update({ lastSearched })] *)
Definition update_book (env : Env) (id iso : string) : M unit :=
  emit env (EvUpdateBook id iso) ;;;
  (λ w, match books w !! id with
        | Some b => (Ok tt, set_books (<[id := with_lastSearched b iso]> (books w)) w)
        | None => (Throw NotFound, w)
        end).

(** The document [n] after [update({ read: true, readAt })]. *)
Definition mark_read (n : Notification) (readAt : Z) : Notification :=
  mkNotification (n_userId n) (n_bookTitle n) (n_title n) (n_price n) (n_source n)
    (n_link n) (n_condition n) (n_seller n) (n_date n) true (n_createdAt n) (Some readAt).

(** [db.collection('notifications').doc(id).update({ read: true, readAt })].
    [doc] throws for [undefined] and for the empty string. The id is read
    as the id of a document, one path segment; the documents of the store
    are kept under such ids. *)
Definition update_notification_read (env : Env) (notificationId : option string) : M unit :=
  match notificationId with
  | Some (String c s) =>
      let id := String c s in
      emit env (EvUpdateNotification id) ;;;
      (λ w, match notifs w !! id with
            | Some n => (Ok tt, set_notifs (<[id := mark_read n (clock w)]> (notifs w)) w)
            | None => (Throw NotFound, w)
            end)
  | _ => throw InvalidArgument
  end.

(** [db.collection('users').where('notifications', '==', true).get()] *)
Definition get_users_notifying (env : Env) : M (list (string * User)) :=
  emit env (EvQuery "users") ;;;
  (λ w, (Ok (filter (λ d, notifications d.2 = Some true) (map_to_list (users w))), w)).

(** [db.collection('books').where('userId', '==', uid).get()] *)
Definition get_books_of (env : Env) (uid : string) : M (list (string * Book)) :=
  emit env (EvQuery "books") ;;;
  (λ w, (Ok (filter (λ d, book_userId d.2 = uid) (map_to_list (books w))), w)).

(** The order in which an inequality filter on [createdAt] returns
    documents. *)
Definition createdAt_le (a b : string * Notification) : Prop :=
  n_createdAt a.2 ≤ n_createdAt b.2.

#[global] Instance createdAt_le_dec : RelDecision createdAt_le.
Proof. intros a b. unfold createdAt_le. apply _. Defined.

(** The documents created before [cutoff], by increasing [createdAt], at
    most [n] of them. *)
Definition notifications_before (cutoff : Z) (n : nat) (m : gmap string Notification)
    : list (string * Notification) :=
  take n (merge_sort createdAt_le
            (filter (λ d, n_createdAt d.2 < cutoff) (map_to_list m))).

(** [db.collection('notifications').where('createdAt', '<', cutoff)
      .limit(n).get()] *)
Definition get_notifications_before (env : Env) (cutoff : Z) (n : nat)
    : M (list (string * Notification)) :=
  emit env (EvQuery "notifications") ;;;
  (λ w, (Ok (notifications_before cutoff n (notifs w)), w)).

(** ** 4.4 Notification persistence and the notification mail *)

Definition transporter_sendMail (env : Env) (m : Mail) : M unit :=
  let* now := Date_now in
  emit env (EvSendMail m) ;;;
  if smtp_accepts env now m
  then (λ w, (Ok tt, set_outbox (outbox w ++ [m]) w))
  else throw MailError.

Definition sendEmailToUser (env : Env) (email name bookTitle : string)
    (results : list SearchResult) : M unit :=
  try_catch
    (transporter_sendMail env (mkMail email name bookTitle results) ;;;
     console (EvLog "Email sent"))
    (λ error, console (EvError "Error sending email:") ;;; throw error).

(** [result.condition || null] *)
Definition or_null (o : option string) : option string :=
  if JS.truthy o then o else None.

(** [for (const result of results) { batch.set(db...doc(), {...}) }] *)
Fixpoint batch_set_all (env : Env) (userId bookTitle : string)
    (results : list SearchResult) (batch : list Write) : M (list Write) :=
  match results with
  | [] => ret batch
  | result :: rest =>
      let* notificationRef := new_doc_id env in
      let* now := Date_now in
      let date := match JS.split "T"%char (toISOString env now) with
                  | d :: _ => d
                  | [] => ""
                  end in
      batch_set_all env userId bookTitle rest
        (batch ++
         [WSet notificationRef
            (λ createdAt,
               mkNotification userId bookTitle (title result) (price result) (source result)
                 (link result) (or_null (condition result)) (or_null (seller result))
                 date false createdAt None)])
  end.

Definition saveNotifications (env : Env) (userId bookTitle : string)
    (results : list SearchResult) : M unit :=
  try_catch
    (let* batch := batch_set_all env userId bookTitle results [] in
     batch_commit env batch ;;;
     console (EvLog "Saved notifications"))
    (λ error, console (EvError "Error saving notifications:") ;;; throw error).

(** ** 4.3 Scheduled batch job *)

(** [lastSearched && lastSearched > sixHoursAgo]: the stored string is
    falsy when absent or empty; an Invalid Date compares false. *)
Definition searchedRecently (env : Env) (book : Book) (now : Z) : bool :=
  let lastSearched :=
    if JS.truthy (lastSearched book)
    then Date_parse env <$> lastSearched book
    else None in
  let sixHoursAgo := now - 6 * 60 * 60 * 1000 in
  match lastSearched with
  | Some (Some t) => sixHoursAgo <? t
  | Some None => false
  | None => false
  end.

(** The [try] block of the loop over a user's books. *)
Definition searchAndNotify (env : Env) (userId : string) (userData : User)
    (bookId : string) (book : Book) : M unit :=
  let* results := searchAllPlatforms env (book_title book) (book_author book) in
  (if (0 <? length results)%nat
   then
     sendEmailToUser env (email userData) (displayName userData) (book_title book) results ;;;
     saveNotifications env userId (book_title book) results ;;;
     console (EvLog "Found results")
   else ret tt) ;;;
  let* now := Date_now in
  update_book env bookId (toISOString env now) ;;;
  sleep 2000.

(** The body of [for (const bookDoc of booksSnapshot.docs)]. *)
Definition processBook (env : Env) (userId : string) (userData : User)
    (bookDoc : string * Book) : M unit :=
  let book := bookDoc.2 in
  let* now := Date_now in
  if searchedRecently env book now
  then console (EvLog "Skipping - searched recently")
  else
    try_catch
      (searchAndNotify env userId userData bookDoc.1 book)
      (λ error, console (EvError "Error searching for book")).

Fixpoint for_books (env : Env) (userId : string) (userData : User)
    (bookDocs : list (string * Book)) : M unit :=
  match bookDocs with
  | [] => ret tt
  | bookDoc :: rest =>
      processBook env userId userData bookDoc ;;;
      for_books env userId userData rest
  end.

Fixpoint for_users (env : Env) (userDocs : list (string * User)) : M unit :=
  match userDocs with
  | [] => ret tt
  | userDoc :: rest =>
      let* booksSnapshot := get_books_of env userDoc.1 in
      console (EvLog "User has books") ;;;
      for_books env userDoc.1 userDoc.2 booksSnapshot ;;;
      sleep 1000 ;;;
      for_users env rest
  end.

Definition dailyBookSearch (env : Env) : M unit :=
  console (EvLog "Starting daily book search...") ;;;
  try_catch
    (let* usersSnapshot := get_users_notifying env in
     console (EvLog "Found users with notifications enabled") ;;;
     for_users env usersSnapshot)
    (λ error, console (EvError "Error in daily book search:")) ;;;
  console (EvLog "Daily book search completed").

(** ** 4.6 and the callable operations *)

(** [context.auth]: the caller's uid when the call is authenticated. *)
Record Context := mkContext { auth : option string }.

Record SearchBookData := mkSearchBookData {
  data_bookTitle : option string;
  data_author : option string
}.

Record SearchBookResponse := mkSearchBookResponse {
  results : list SearchResult;
  searchedAt : string
}.

(** [data] is what the client sent: [None] stands for [null] and
    [undefined], which a call without an argument delivers. The pattern
    [const { bookTitle, author } = data] comes after the check of
    [context.auth] and before the [try] block. *)
Definition searchBook (env : Env) (data : option SearchBookData) (context : Context)
    : M SearchBookResponse :=
  match auth context with
  | None => throw (HttpsError "unauthenticated" "User must be authenticated")
  | Some _ =>
      match data with
      | None => throw TypeError
      | Some fields =>
          match data_bookTitle fields with
          | Some (String c s) =>
              let bookTitle := String c s in
              try_catch
                (let* results := searchAllPlatforms env bookTitle (data_author fields) in
                 let* now := Date_now in
                 ret (mkSearchBookResponse results (toISOString env now)))
                (λ error,
                   console (EvError "Error in manual search:") ;;;
                   throw (HttpsError "internal" "Search failed"))
          | _ => throw (HttpsError "invalid-argument" "Book title is required")
          end
      end
  end.

Record MarkReadResponse := mkMarkReadResponse { success : bool }.

Definition markNotificationRead (env : Env) (notificationId : option string)
    (context : Context) : M MarkReadResponse :=
  match auth context with
  | None => throw (HttpsError "unauthenticated" "User must be authenticated")
  | Some _ =>
      try_catch
        (update_notification_read env notificationId ;;;
         ret (mkMarkReadResponse true))
        (λ error,
           console (EvError "Error marking notification as read:") ;;;
           throw (HttpsError "internal" "Failed to update notification"))
  end.

(** ** 4.5 Retention sweep *)

Definition cleanupOldNotifications (env : Env) : M unit :=
  console (EvLog "Starting cleanup of old notifications...") ;;;
  let* now := Date_now in
  let thirtyDaysAgo := thirtyDaysBefore env now in
  try_catch
    (let* oldNotifications := get_notifications_before env thirtyDaysAgo 500 in
     match oldNotifications with
     | [] => console (EvLog "No old notifications to clean up")
     | _ =>
         let batch := (λ doc : string * Notification, WDelete doc.1) <$> oldNotifications in
         batch_commit env batch ;;;
         console (EvLog "Deleted old notifications")
     end)
    (λ error, console (EvError "Error cleaning up old notifications:")).

(** ** Frames *)

(** Every run of [m] relates the world it starts in to the world it ends in. *)
Definition preserves (R : World → World → Prop) {A} (m : M A) : Prop :=
  ∀ w, R w (m w).2.

(** The stored documents, the sent mail and the id supply are the same in
    both worlds. *)
Definition same_store (w w' : World) : Prop :=
  users w' = users w ∧ books w' = books w ∧ notifs w' = notifs w
  ∧ outbox w' = outbox w ∧ next_id w' = next_id w.

(** [m] never writes: it may only let time pass and extend the trace. *)
Definition read_only {A} (m : M A) : Prop := preserves same_store m.

(** The trace of the second world continues the trace of the first. *)
Definition trace_grows (w w' : World) : Prop :=
  ∃ evs, trace w' = trace w ++ evs.

(** No book document changed. *)
Definition same_books (w w' : World) : Prop := books w' = books w.

(** No book document other than [id] changed. *)
Definition other_books_kept (id : string) (w w' : World) : Prop :=
  ∀ id', id' ≠ id → books w' !! id' = books w !! id'.

(** ** The specification's predicates *)

(** [sub] occurs somewhere inside [s]. *)
Definition contains (s sub : string) : Prop :=
  ∃ pre post, s = pre +:+ sub +:+ post.

(** The test of [each_row] as a proposition, in the terms of the code: the
    lower-cased title includes "book", "novel", "textbook" or the
    lower-cased form of a piece of [searchQuery.split(' ')]. *)
Definition titleRelates (searchQuery title : string) : Prop :=
  let t := JS.toLowerCase title in
  contains t "book" ∨ contains t "novel" ∨ contains t "textbook"
  ∨ ∃ token, token ∈ JS.split " "%char searchQuery ∧ contains t (JS.toLowerCase token).

(** The relevance rule as the specification words it, stated without the
    functions of the code. [small_form C c]: [C] is a capital letter among
    the 8-bit code units (A to Z, or a capital of Latin-1) and [c] is the
    same letter in small. *)
Definition small_form (C c : ascii) : Prop :=
  let n := N_of_ascii C in
  ((65 ≤ n ∧ n ≤ 90) ∨ (192 ≤ n ∧ n ≤ 222 ∧ n ≠ 215))%N
  ∧ N_of_ascii c = (n + 32)%N.

(** The same letter, case aside. *)
Definition same_letter (a b : ascii) : Prop :=
  a = b ∨ small_form a b ∨ small_form b a.

(** The same text, case aside. *)
Fixpoint same_text (s t : string) : Prop :=
  match s, t with
  | EmptyString, EmptyString => True
  | String a s', String b t' => same_letter a b ∧ same_text s' t'
  | _, _ => False
  end.

(** [title] contains [word], case aside. *)
Definition contains_ignoring_case (title word : string) : Prop :=
  ∃ pre mid post, title = pre +:+ mid +:+ post ∧ same_text mid word.

(** [piece] stands in [searchQuery] between two spaces, or between a space
    and an end of the query, or is the whole query, and holds no space. *)
Definition piece_of (searchQuery piece : string) : Prop :=
  ¬ contains piece " "
  ∧ (searchQuery = piece
     ∨ (∃ post, searchQuery = piece +:+ " " +:+ post)
     ∨ (∃ pre, searchQuery = pre +:+ " " +:+ piece)
     ∨ (∃ pre post, searchQuery = pre +:+ " " +:+ piece +:+ " " +:+ post)).

(** A token of the query: a piece that is not empty. *)
Definition token_of (searchQuery token : string) : Prop :=
  token ≠ "" ∧ piece_of searchQuery token.

(** The title contains, case aside, "book", "novel", "textbook" or a token
    of the search query. *)
Definition title_relates (searchQuery title : string) : Prop :=
  contains_ignoring_case title "book"
  ∨ contains_ignoring_case title "novel"
  ∨ contains_ignoring_case title "textbook"
  ∨ ∃ token, token_of searchQuery token ∧ contains_ignoring_case title token.

(** The test of [each_row], on a row. *)
Definition keepsRow (searchQuery : string) (element : Row) : bool :=
  relatesToBooks searchQuery (JS.toLowerCase (JS.trim (result_title element))).

(** A post that is neither flagged as adult content nor from a subreddit
    that is not public; a child without [data] carries no flag. *)
Definition unflagged (post : Post) : bool :=
  match post_data post with
  | Some pd => negb (pd_over_18 pd) && String.eqb (pd_subreddit_type pd) "public"
  | None => true
  end.

(** The environment whose Reddit answers have the flagged posts taken out. *)
Definition without_flagged (env : Env) : Env :=
  mkEnv (craigslist_rows env)
    (λ t term,
       match reddit_json env t term with
       | Ok body => Ok (mkRedditBody (List.filter unflagged <$> children body))
       | Throw e => Throw e
       end)
    (smtp_accepts env) (latency env) (Date_parse env) (toISOString env)
    (thirtyDaysBefore env) (auto_id env).

(** [r] was built from a post that some Reddit answer of [env] contains and
    that is neither adult-flagged nor from a non-public subreddit. *)
Definition from_unflagged_post (env : Env) (r : SearchResult) : Prop :=
  ∃ t term body posts post pd,
    reddit_json env t term = Ok body ∧ children body = Some posts
    ∧ post ∈ posts ∧ post_data post = Some pd ∧ r = redditResult pd
    ∧ pd_over_18 pd = false ∧ pd_subreddit_type pd = "public".

(** The notifications of [m] created before [cutoff]: those the retention
    sweep may delete. *)
Definition expired (cutoff : Z) (m : gmap string Notification) : gmap string Notification :=
  filter (λ d, n_createdAt d.2 < cutoff) m.

(** ** Sample inputs *)

(** [toISOString] and the parsing of its output, for the years 0000 to
    9999: the samples read and print their dates with these. *)
Fixpoint decimal (width : nat) (z : Z) (acc : string) : string :=
  match width with
  | O => acc
  | S width' => decimal width' (z / 10) (String (ascii_of_N (48 + Z.to_N (z mod 10))) acc)
  end.

(** Year, month and day of the day number [days] counted from 1970-01-01. *)
Definition civil_from_days (days : Z) : Z * Z * Z :=
  let z := days + 719468 in
  let era := z / 146097 in
  let doe := z - era * 146097 in
  let yoe := (doe - doe / 1460 + doe / 36524 - doe / 146096) / 365 in
  let doy := doe - (365 * yoe + yoe / 4 - yoe / 100) in
  let mp := (5 * doy + 2) / 153 in
  let d := doy - (153 * mp + 2) / 5 + 1 in
  let m := if mp <? 10 then mp + 3 else mp - 9 in
  let y := yoe + era * 400 + (if m <=? 2 then 1 else 0) in
  (y, m, d).

Definition days_from_civil (y m d : Z) : Z :=
  let y' := y - (if m <=? 2 then 1 else 0) in
  let era := y' / 400 in
  let yoe := y' - era * 400 in
  let doy := (153 * (if 2 <? m then m - 3 else m + 9) + 2) / 5 + d - 1 in
  let doe := yoe * 365 + yoe / 4 - yoe / 100 + doy in
  era * 146097 + doe - 719468.

Definition sample_toISOString (t : Z) : string :=
  let '(y, m, d) := civil_from_days (t / 86400000) in
  let ms := t mod 86400000 in
  decimal 4 y "" +:+ "-" +:+ decimal 2 m "" +:+ "-" +:+ decimal 2 d "" +:+ "T"
  +:+ decimal 2 (ms / 3600000) "" +:+ ":" +:+ decimal 2 (ms / 60000 mod 60) "" +:+ ":"
  +:+ decimal 2 (ms / 1000 mod 60) "" +:+ "." +:+ decimal 3 (ms mod 1000) "" +:+ "Z".

(** The number written by [s], when [s] is made of digits. *)
Fixpoint number (s : string) (acc : Z) : option Z :=
  match s with
  | EmptyString => Some acc
  | String c s' =>
      if is_digit c then number s' (10 * acc + Z.of_N (N_of_ascii c) - 48) else None
  end.

Definition sample_Date_parse (s : string) : option Z :=
  let field i n := number (String.substring i n s) 0 in
  if String.eqb (String.substring 4 1 s +:+ String.substring 7 1 s +:+ String.substring 10 1 s
                 +:+ String.substring 13 1 s +:+ String.substring 16 1 s
                 +:+ String.substring 19 1 s +:+ String.substring 23 2 s) "--T::.Z"
  then
    match field 0%nat 4%nat, field 5%nat 2%nat, field 8%nat 2%nat,
          field 11%nat 2%nat, field 14%nat 2%nat, field 17%nat 2%nat, field 20%nat 3%nat with
    | Some y, Some m, Some d, Some hh, Some mm, Some ss, Some ms =>
        Some (days_from_civil y m d * 86400000 + hh * 3600000 + mm * 60000 + ss * 1000 + ms)
    | _, _, _, _, _, _, _ => None
    end
  else None.

(** An environment in which Craigslist answers [rows], Reddit answers
    [reddit] to every term, the mail transport accepts or not as [mail_ok]
    says, and no call takes time. *)
Definition sample_env (rows : Exc (list Row)) (reddit : Exc RedditBody) (mail_ok : bool) : Env :=
  mkEnv (λ _ _, rows) (λ _ _, reddit) (λ _ _, mail_ok) (λ _, 0)
    sample_Date_parse sample_toISOString
    (λ t, t - 30 * 24 * 60 * 60 * 1000)
    (λ n, String (ascii_of_nat (97 + n)) "").

Definition sample_user : User := mkUser "reader@example.org" "Reader" (Some true).

Definition sample_book (last : option string) : Book :=
  mkBook "Dune" None "u1" last.

(** One user tracking one book, at 2024-05-01 09:00 UTC. *)
Definition sample_world (last : option string) : World :=
  mkWorld 1714554000000 {[ "u1" := sample_user ]} {[ "b1" := sample_book last ]} ∅ [] [] 0.

Definition dune_row_1 : Row := mkRow "Dune book" "$5" (Some "/d/1.html") "".
Definition dune_row_2 : Row := mkRow "Dune novel, signed" "$50" (Some "/d/1.html") "".

Definition dune_post : Post :=
  mkPost (Some (mkPostData "Dune for sale $10.50" None false "public" "books" "/r/books/1" "bob")).

(** Craigslist lists two rows that share a link, Reddit has one post. *)
Definition both_env : Env :=
  sample_env (Ok [dune_row_1; dune_row_2]) (Ok (mkRedditBody (Some [dune_post]))) true.

(** Nothing is on offer anywhere. *)
Definition quiet_env : Env := sample_env (Ok []) (Ok (mkRedditBody None)) true.

(** Craigslist has one listing and Reddit is unreachable; the mail
    transport accepts, or rejects, every message. *)
Definition found_env : Env := sample_env (Ok [dune_row_1]) (Throw NetworkError) true.
Definition rejecting_env : Env := sample_env (Ok [dune_row_1]) (Throw NetworkError) false.

(** Craigslist is unreachable and Reddit has one post. *)
Definition reddit_only_env : Env :=
  sample_env (Throw NetworkError) (Ok (mkRedditBody (Some [dune_post]))) true.

Definition sample_notification (createdAt : Z) : Notification :=
  mkNotification "u1" "Dune" "Dune book" "$5" "Craigslist" "https://craigslist.org/d/1.html"
    (Some "Used") None "2024-01-01" false createdAt None.

(** [n] notifications created on 2024-03-01, two months before the sample
    clock, and one created an hour before it. *)
Definition aged_notifications (n : nat) : gmap string Notification :=
  <["fresh" := sample_notification 1714550400000]>
    (list_to_map ((λ i, (decimal 3 (Z.of_nat i) "", sample_notification 1709283600000))
                  <$> seq 0 n)).

Definition sweep_world (n : nat) : World :=
  mkWorld 1714554000000 ∅ ∅ (aged_notifications n) [] [] 0.

(** ** Further predicates *)

(** [s] is made of decimal digits. *)
Fixpoint digits_only (s : string) : bool :=
  match s with
  | EmptyString => true
  | String c s' => is_digit c && digits_only s'
  end.

(** What [\d+(?:\.\d{2})?] matches: digits, at least one, and possibly a
    point and two more digits. *)
Definition price_shape (p : string) : Prop :=
  ∃ ds, ds ≠ "" ∧ digits_only ds = true
        ∧ (p = ds
           ∨ ∃ d1 d2, is_digit d1 = true ∧ is_digit d2 = true
                      ∧ p = ds +:+ String "."%char (String d1 (String d2 ""))).

(** No dollar sign of [s] is followed by a digit. *)
Definition no_dollar_digit (s : string) : Prop :=
  ∀ pre d post, s = pre +:+ String "$"%char (String d post) → is_digit d = false.

(** The request for [term] never gives [searchReddit] a listing it can
    walk: it is rejected, or a child of the listing has no [data]. *)
Definition term_breaks (env : Env) (term : string) : Prop :=
  ∀ t, match reddit_json env t term with
       | Throw _ => True
       | Ok body => ∃ posts, children body = Some posts ∧ mkPost None ∈ posts
       end.

(** The query has an empty piece between single spaces: it is empty, it
    starts or ends with a space, or it has two spaces in a row. *)
Definition has_empty_piece (searchQuery : string) : Prop :=
  searchQuery = ""
  ∨ (∃ rest, searchQuery = " " +:+ rest)
  ∨ (∃ front, searchQuery = front +:+ " ")
  ∨ contains searchQuery "  ".

(** The notification [saveNotifications] queues for [result] at time
    [now]; [createdAt] is filled in by the server. *)
Definition notification_for (env : Env) (userId bookTitle : string) (now : Z)
    (result : SearchResult) (createdAt : Z) : Notification :=
  mkNotification userId bookTitle (title result) (price result) (source result)
    (link result) (or_null (condition result)) (or_null (seller result))
    (match JS.split "T"%char (toISOString env now) with
     | d :: _ => d
     | [] => ""
     end)
    false createdAt None.

(** The ids [saveNotifications] takes from the id supply for [n] results. *)
Definition new_ids (env : Env) (w : World) (n : nat) : list string :=
  auto_id env <$> seq (next_id w) n.

(** The user ids for which the daily job runs. *)
Definition notifying (w : World) (uid : string) : Prop :=
  ∃ u, users w !! uid = Some u ∧ notifications u = Some true.

(** The batch [saveNotifications] builds for [results] when the clock reads
    [now] and [n] ids were handed out before: one [set] per result, under
    the next ids of the supply. *)
Definition writes_for (env : Env) (userId bookTitle : string) (now : Z) (n : nat)
    (results : list SearchResult) : list Write :=
  (λ p, WSet p.1 (notification_for env userId bookTitle now p.2))
  <$> zip (auto_id env <$> seq n (length results)) results.

(** The world in which the daily job updates [lastSearched] after it has
    mailed [results] and saved their notifications, [w1] being the world
    in which the search ended. *)
Definition notified_world (env : Env) (userId : string) (userData : User) (book : Book)
    (results : list SearchResult) (w1 : World) : World :=
  let m := mkMail (email userData) (displayName userData) (book_title book) results in
  let t2 := clock w1 + Z.max 0 (latency env (EvSendMail m)) in
  let t3 := t2 + Z.max 0 (latency env (EvBatchCommit (length results))) in
  mkWorld t3 (users w1) (books w1)
    (foldl (apply_write t3) (notifs w1)
       (writes_for env userId (book_title book) t2 (next_id w1) results))
    (outbox w1 ++ [m])
    (trace w1 ++ [EvSendMail m; EvLog "Email sent"; EvBatchCommit (length results);
                  EvLog "Saved notifications"; EvLog "Found results"])
    (next_id w1 + length results)%nat.

(** The world in which the daily job updates [lastSearched] for a book it
    searched, when that step is reached. *)
Definition update_world (env : Env) (userId : string) (userData : User) (book : Book)
    (results : list SearchResult) (w1 : World) : World :=
  match results with
  | [] => w1
  | _ => notified_world env userId userData book results w1
  end.

(** ** The client's book service ([src/services/books.service.ts]) *)

(** The data of a [books] document as the client writes it; the id is the
    key it is stored under. *)
Record BookData := mkBookData {
  bd_title : string;
  bd_author : option string;
  bd_addedDate : string;
  bd_userId : string
}.

(** [Omit<Book, 'id' | 'userId'>], the argument of [addBook] *)
Record BookInput := mkBookInput {
  in_title : string;
  in_author : option string;
  in_addedDate : string
}.

(** What a call of the service ends in: a value, or [throw new
    Error(message)]. *)
Inductive Outcome (A : Type) :=
  | Done (a : A)
  | Failed (message : string).
Arguments Done {A} a.
Arguments Failed {A} message.

(** The client's view of the world: its clock, the [books] collection and
    the ids Firestore has handed out. *)
Record Client := mkClient {
  c_clock : Z;
  c_books : gmap string BookData;
  c_next_id : nat
}.

(** What the client's surroundings answer: the [Date] library, the ids of
    new documents, and whether Firestore rejects a request made at a
    given time (offline, permission denied, missing index). *)
Record ClientEnv := mkClientEnv {
  client_toISOString : Z → string;
  client_auto_id : nat → string;
  firestore_rejects : Z → bool
}.

(** [new Date().toISOString().split('T')[0]] *)
Definition today (cenv : ClientEnv) (c : Client) : string :=
  match JS.split "T"%char (client_toISOString cenv (c_clock c)) with
  | d :: _ => d
  | [] => ""
  end.

Definition addBook (cenv : ClientEnv) (userId : string) (book : BookInput)
    : Client → Outcome (string * BookData) * Client :=
  λ c,
    (* try *)
    let bookData := mkBookData (in_title book) (in_author book) (today cenv c) userId in
    if firestore_rejects cenv (c_clock c)
    then (Failed "Failed to add book", c)
    else
      let id := client_auto_id cenv (c_next_id c) in
      (Done (id, bookData), mkClient (c_clock c) (<[id := bookData]> (c_books c)) (S (c_next_id c))).

(** The segments of a slash-separated path: the SDK splits at ['/'] and
    drops the empty pieces, so 'k1/' and '/k1' have the one segment 'k1'. *)
Definition path_segments (path : string) : list string :=
  List.filter (λ segment, negb (String.eqb segment "")) (JS.split "/"%char path).

(** What a reference into the collection 'books' names: a document of the
    collection, or a document further down (in a subcollection of one of
    its documents). *)
Inductive BookRef :=
  | BookDoc (id : string)
  | NestedDoc (segments : list string).

(** [doc(db, 'books', bookId)]: [bookId] is read as a path below 'books'.
    The call throws when [bookId] holds '//' and when 'books' and the
    segments of [bookId] together are an odd number of segments, which is
    not the path of a document. *)
Definition doc_books (bookId : string) : option BookRef :=
  if JS.includes bookId "//" then None
  else
    match path_segments bookId with
    | [id] => Some (BookDoc id)
    | segments =>
        if Nat.even (S (length segments)) then Some (NestedDoc segments) else None
    end.

Definition removeBook (cenv : ClientEnv) (bookId : string) : Client → Outcome unit * Client :=
  λ c,
    (* try *)
    match doc_books bookId with
    | None => (Failed "Failed to remove book", c)
    | Some ref =>
        if firestore_rejects cenv (c_clock c)
        then (Failed "Failed to remove book", c)
        else
          match ref with
          | BookDoc id =>
              (Done tt, mkClient (c_clock c) (delete id (c_books c)) (c_next_id c))
          | NestedDoc _ => (Done tt, c)
          end
    end.

(** [orderBy('addedDate', 'desc')]: the later date first. *)
Definition addedDate_desc (a b : string * BookData) : Prop :=
  String.le (bd_addedDate b.2) (bd_addedDate a.2).

#[global] Instance addedDate_desc_dec : RelDecision addedDate_desc.
Proof. intros a b. unfold addedDate_desc. apply _. Defined.

Definition getUserBooks (cenv : ClientEnv) (userId : string)
    : Client → Outcome (list (string * BookData)) * Client :=
  λ c,
    if firestore_rejects cenv (c_clock c)
    then (Failed "Failed to fetch books", c)
    else
      (Done (merge_sort addedDate_desc
               (filter (λ d, bd_userId d.2 = userId) (map_to_list (c_books c)))),
       c).

(** A client with two books of one user and one of another. *)
Definition sample_client : Client :=
  mkClient 1714554000000
    {[ "k1" := mkBookData "Dune" (Some "Herbert") "2024-03-01" "u1";
       "k2" := mkBookData "Emma" None "2024-04-15" "u1";
       "k3" := mkBookData "Ulysses" None "2024-04-01" "u2" ]}
    0.

Definition sample_client_env : ClientEnv :=
  mkClientEnv sample_toISOString (λ n, String (ascii_of_nat (97 + n)) "") (λ _, false).

(** Every request [searchReddit] makes for [searchQuery] is answered with
    a listing all of whose children have [data], or with no listing. *)
Definition reddit_answers (env : Env) (searchQuery : string) : Prop :=
  ∀ t term, term ∈ searchTerms searchQuery →
    ∃ body, reddit_json env t term = Ok body
            ∧ ∀ posts post, children body = Some posts → post ∈ posts →
                            post_data post ≠ None.

(** Two users, of whom only the first has notifications enabled, with one
    book each. *)
Definition two_readers_world : World :=
  mkWorld 1714554000000
    {[ "u1" := sample_user; "u2" := mkUser "other@example.org" "Other" (Some false) ]}
    {[ "b1" := sample_book None; "b2" := mkBook "Emma" None "u2" None ]}
    ∅ [] [] 0.

Definition couch_row : Row := mkRow "Red Couch for sale" "$40" None "".
Definition lamp_row : Row := mkRow "Book lamp" "" None "".

(** * Properties *)

(** ** Deduplication by link *)

Section dedup.
Implicit Types (l : list SearchResult) (seen : list string).

Lemma findIndex_from_app {A} (p : A → bool) (l1 l2 : list A) i :
  JS.findIndex_from p i (l1 ++ l2) =
  if existsb p l1 then JS.findIndex_from p i l1
  else JS.findIndex_from p (i + Z.of_nat (length l1)) l2.
Proof.
  revert i. induction l1 as [|x l1 IH]; intros i; simpl.
  - f_equal. lia.
  - destruct (p x); simpl; [done|]. rewrite IH.
    destruct (existsb p l1); [done|]. f_equal. lia.
Qed.

Lemma findIndex_from_found {A} (p : A → bool) (l : list A) i :
  existsb p l = true →
  i ≤ JS.findIndex_from p i l < i + Z.of_nat (length l).
Proof.
  revert i. induction l as [|x l IH]; intros i; simpl; [done|].
  destruct (p x); simpl; [lia|]. intros H. specialize (IH (i + 1) H). lia.
Qed.

Lemma existsb_link_elem_of k l :
  existsb (λ r, String.eqb (link r) k) l = true ↔ k ∈ link <$> l.
Proof.
  induction l as [|x l IH]; simpl.
  - split; [done|]. by intros ?%elem_of_nil.
  - rewrite orb_true_iff, IH, elem_of_cons, String.eqb_eq. naive_solver.
Qed.

(** At position [length l1] of [l1 ++ x :: l2], the entry [x] is its own
    first occurrence exactly when no entry of [l1] carries its link. *)
Lemma first_occurrence_test l1 x l2 :
  Z.eqb (Z.of_nat (length l1))
        (JS.findIndex (λ r, String.eqb (link r) (link x)) (l1 ++ x :: l2))
  = bool_decide (link x ∉ link <$> l1).
Proof.
  unfold JS.findIndex. rewrite findIndex_from_app.
  destruct (existsb _ l1) eqn:E.
  - pose proof (findIndex_from_found _ _ 0 E) as Hb.
    rewrite bool_decide_eq_false_2; [lia|].
    intros Hn. apply Hn. by apply existsb_link_elem_of.
  - simpl. rewrite String.eqb_refl.
    rewrite bool_decide_eq_true_2; [lia|].
    intros Hin%existsb_link_elem_of. congruence.
Qed.

Lemma keepFirstPerLink_seen_ext seen1 seen2 l :
  (∀ k, k ∈ seen1 ↔ k ∈ seen2) →
  keepFirstPerLink seen1 l = keepFirstPerLink seen2 l.
Proof.
  revert seen1 seen2. induction l as [|x l IH]; intros s1 s2 Hs; simpl; [done|].
  rewrite (bool_decide_ext _ _ (Hs (link x))).
  case_bool_decide; [by apply IH|].
  f_equal. apply IH. intros k. rewrite !elem_of_cons. naive_solver.
Qed.

Lemma filter_from_keepFirst self l1 l2 :
  self = l1 ++ l2 →
  JS.filter_from
    (λ result index,
       Z.eqb index (JS.findIndex (λ r, String.eqb (link r) (link result)) self))
    (Z.of_nat (length l1)) l2
  = keepFirstPerLink (link <$> l1) l2.
Proof.
  revert self l1. induction l2 as [|x l2 IH]; intros self l1 Hself; simpl; [done|].
  rewrite Hself at 1. rewrite first_occurrence_test.
  assert (Hnext : Z.of_nat (length l1) + 1 = Z.of_nat (length (l1 ++ [x]))).
  { rewrite length_app. simpl. lia. }
  assert (Hself' : self = (l1 ++ [x]) ++ l2) by by rewrite <- app_assoc.
  rewrite Hnext, (IH self (l1 ++ [x]) Hself').
  assert (Hseen : keepFirstPerLink (link <$> l1 ++ [x]) l2
                  = keepFirstPerLink (link x :: (link <$> l1)) l2).
  { apply keepFirstPerLink_seen_ext. intros k.
    rewrite fmap_app, elem_of_app, elem_of_cons. simpl.
    rewrite list_elem_of_singleton. naive_solver. }
  rewrite Hseen.
  destruct (decide (link x ∈ link <$> l1)) as [Hin|Hin].
  - rewrite bool_decide_eq_false_2 by naive_solver.
    rewrite bool_decide_eq_true_2 by done.
    apply keepFirstPerLink_seen_ext. intros k. rewrite elem_of_cons. naive_solver.
  - rewrite bool_decide_eq_true_2 by done.
    by rewrite bool_decide_eq_false_2 by done.
Qed.

Lemma uniqueByLink_keepFirst l : uniqueByLink l = keepFirstPerLink [] l.
Proof. exact (filter_from_keepFirst l [] l eq_refl). Qed.


Lemma keepFirstPerLink_filter s1 s2 l :
  keepFirstPerLink (s1 ++ s2) l
  = filter (λ r, link r ∉ s1) (keepFirstPerLink s2 l).
Proof.
  revert s2. induction l as [|x l IH]; intros s2; simpl; [done|].
  destruct (decide (link x ∈ s2)) as [H2|H2].
  - rewrite (bool_decide_eq_true_2 (link x ∈ s2)) by done.
    rewrite bool_decide_eq_true_2 by (apply elem_of_app; auto). apply IH.
  - rewrite (bool_decide_eq_false_2 (link x ∈ s2)) by done.
    assert (Hmove : keepFirstPerLink (link x :: s1 ++ s2) l
                    = keepFirstPerLink (s1 ++ link x :: s2) l).
    { apply keepFirstPerLink_seen_ext. intros k.
      rewrite elem_of_cons, !elem_of_app, elem_of_cons. tauto. }
    destruct (decide (link x ∈ s1)) as [H1|H1].
    + rewrite bool_decide_eq_true_2 by (apply elem_of_app; auto).
      rewrite filter_cons_False by tauto.
      rewrite <- IH. apply keepFirstPerLink_seen_ext. intros k.
      rewrite !elem_of_app, elem_of_cons. split; [tauto|].
      intros [?|[->|?]]; auto.
    + rewrite bool_decide_eq_false_2 by (rewrite elem_of_app; tauto).
      rewrite filter_cons_True by done.
      by rewrite Hmove, IH.
Qed.

Lemma keepFirstPerLink_app seen l1 l2 :
  keepFirstPerLink seen (l1 ++ l2)
  = keepFirstPerLink seen l1 ++ keepFirstPerLink ((link <$> l1) ++ seen) l2.
Proof.
  revert seen. induction l1 as [|x l1 IH]; intros seen; simpl; [done|].
  case_bool_decide as Hx.
  - rewrite IH. f_equal. apply keepFirstPerLink_seen_ext. intros k.
    rewrite elem_of_cons, !elem_of_app. split; [tauto|].
    intros [->|[?|?]]; auto.
  - rewrite IH. simpl. do 2 f_equal. apply keepFirstPerLink_seen_ext. intros k.
    rewrite elem_of_cons, !elem_of_app, elem_of_cons. tauto.
Qed.

Lemma keepFirstPerLink_sublist seen l : keepFirstPerLink seen l `sublist_of` l.
Proof.
  revert seen. induction l as [|x l IH]; intros seen; simpl; [done|].
  case_bool_decide; [apply sublist_cons | apply sublist_skip]; apply IH.
Qed.

Lemma keepFirstPerLink_unseen seen l r :
  r ∈ keepFirstPerLink seen l → link r ∉ seen.
Proof.
  revert seen. induction l as [|x l IH]; intros seen; simpl.
  - by intros ?%elem_of_nil.
  - case_bool_decide as Hx; [apply IH|].
    intros [->|Hr]%elem_of_cons; [done|].
    apply IH in Hr. rewrite elem_of_cons in Hr. tauto.
Qed.

Lemma keepFirstPerLink_NoDup seen l : NoDup (link <$> keepFirstPerLink seen l).
Proof.
  revert seen. induction l as [|x l IH]; intros seen; simpl; [constructor|].
  case_bool_decide as Hx; [apply IH|].
  simpl. constructor; [|apply IH].
  intros (r & Heq & Hr)%list_elem_of_fmap.
  apply keepFirstPerLink_unseen in Hr. apply Hr. rewrite elem_of_cons. by left.
Qed.

Lemma filter_none {A} (P : A → Prop) `{∀ x, Decision (P x)} (l : list A) :
  (∀ x, x ∈ l → ¬ P x) → filter P l = [].
Proof.
  induction l as [|x l IH]; intros Hl; [done|].
  rewrite filter_cons_False by (apply Hl; left).
  apply IH. intros y Hy. apply Hl. by right.
Qed.

(** Of the entries carrying a link [k] not seen before, the output keeps
    one: the first of them in the input. *)
Lemma keepFirstPerLink_earliest seen l k :
  k ∉ seen → k ∈ link <$> l →
  ∃ x, head (filter (λ r, link r = k) l) = Some x
       ∧ filter (λ r, link r = k) (keepFirstPerLink seen l) = [x].
Proof.
  revert seen. induction l as [|x l IH]; intros seen Hk Hin; simpl in *.
  - by apply elem_of_nil in Hin.
  - destruct (decide (link x = k)) as [Hxk|Hxk].
    + exists x. rewrite filter_cons_True by done. split; [done|].
      rewrite bool_decide_eq_false_2 by congruence.
      rewrite filter_cons_True by done. f_equal.
      apply filter_none. intros r Hr%keepFirstPerLink_unseen Hrk.
      apply Hr. rewrite elem_of_cons. left. congruence.
    + rewrite filter_cons_False by done.
      apply elem_of_cons in Hin as [Hin|Hin]; [congruence|].
      case_bool_decide as Hx.
      * by apply IH.
      * rewrite filter_cons_False by done. apply IH; [|done].
        rewrite elem_of_cons. intros [?|?]; [congruence|done].
Qed.

End dedup.

(** The world in which [searchAllPlatforms] starts its work. *)
Lemma searchAllPlatforms_run env bookTitle author w cs rs w1 w2 :
  searchCraigslist env (searchQueryOf bookTitle author)
    (set_trace (trace w ++ [EvAggregator bookTitle author]) w) = (Ok cs, w1) →
  searchReddit env (searchQueryOf bookTitle author) w1 = (Ok rs, w2) →
  searchAllPlatforms env bookTitle author w = (Ok (uniqueByLink (cs ++ rs)), w2).
Proof.
  intros Hc Hr.
  unfold searchAllPlatforms, bind, console, try_catch, catch_empty, Promise_all, try_catch, bind, ret.
  rewrite Hc, Hr. simpl. by rewrite app_nil_r.
Qed.

(** C1. The aggregator's output holds one entry per distinct link of the
    connectors' results, that entry is the earliest one carrying the
    link, and the output keeps the order of the concatenation: the
    Craigslist results, then the Reddit results. *)
Theorem searchAllPlatforms_dedup env bookTitle author w cs rs w1 w2 :
  searchCraigslist env (searchQueryOf bookTitle author)
    (set_trace (trace w ++ [EvAggregator bookTitle author]) w) = (Ok cs, w1) →
  searchReddit env (searchQueryOf bookTitle author) w1 = (Ok rs, w2) →
  ∃ out,
    searchAllPlatforms env bookTitle author w = (Ok out, w2)
    ∧ NoDup (link <$> out)
    ∧ (∀ r, r ∈ out → r ∈ cs ++ rs)
    ∧ (∀ k, k ∈ link <$> (cs ++ rs) →
         ∃ x, head (filter (λ r, link r = k) (cs ++ rs)) = Some x
              ∧ filter (λ r, link r = k) out = [x])
    ∧ out `sublist_of` cs ++ rs
    ∧ out = uniqueByLink cs ++ filter (λ r, link r ∉ link <$> cs) (uniqueByLink rs).
Proof.
  intros Hc Hr. exists (uniqueByLink (cs ++ rs)).
  split; [by apply (searchAllPlatforms_run _ _ _ _ _ _ w1)|].
  rewrite !uniqueByLink_keepFirst.
  split; [apply keepFirstPerLink_NoDup|].
  split.
  { intros r Hin. eapply elem_of_sublist; [exact Hin|]. apply keepFirstPerLink_sublist. }
  split.
  { intros k Hk. apply keepFirstPerLink_earliest; [|done]. by intros ?%elem_of_nil. }
  split; [apply keepFirstPerLink_sublist|].
  rewrite keepFirstPerLink_app. f_equal. apply keepFirstPerLink_filter.
Qed.

(** ** What a computation leaves alone *)

#[global] Instance same_store_preorder : PreOrder same_store.
Proof.
  split.
  - by intros w.
  - unfold same_store. intros w1 w2 w3 (?&?&?&?&?) (?&?&?&?&?). repeat split; congruence.
Qed.

#[global] Instance trace_grows_preorder : PreOrder trace_grows.
Proof.
  split.
  - intros w. exists []. by rewrite app_nil_r.
  - intros w1 w2 w3 [e1 H1] [e2 H2]. exists (e1 ++ e2). by rewrite H2, H1, app_assoc.
Qed.

Section preserved.
Context (R : World → World → Prop) `{!PreOrder R}.

Lemma preserves_ret {A} (a : A) : preserves R (ret a).
Proof. by intros w. Qed.

Lemma preserves_throw {A} e : preserves R (@throw A e).
Proof. by intros w. Qed.

Lemma preserves_lift {A} (r : Exc A) : preserves R (lift r).
Proof. by intros w. Qed.

Lemma preserves_Date_now : preserves R Date_now.
Proof. by intros w. Qed.

Lemma preserves_bind {A B} (m : M A) (k : A → M B) :
  preserves R m → (∀ a, preserves R (k a)) → preserves R (bind m k).
Proof.
  intros Hm Hk w. unfold bind. specialize (Hm w).
  destruct (m w) as [[a|e] w1]; simpl in *; [|done].
  etrans; [exact Hm|apply Hk].
Qed.

Lemma preserves_try_catch {A} (m : M A) (h : Error → M A) :
  preserves R m → (∀ e, preserves R (h e)) → preserves R (try_catch m h).
Proof.
  intros Hm Hh w. unfold try_catch. specialize (Hm w).
  destruct (m w) as [[a|e] w1]; simpl in *; [done|].
  etrans; [exact Hm|apply Hh].
Qed.
End preserved.

Create HintDb preserves discriminated.

(** One step of a proof that a computation preserves a relation; the calls
    it makes are looked up in the hint database [preserves]. *)
Ltac preserves_step :=
  lazymatch goal with
  | |- ∀ _, _ => intro
  | |- preserves _ (bind _ _) => apply preserves_bind; [apply _|..]
  | |- preserves _ (try_catch _ _) => apply preserves_try_catch; [apply _|..]
  | |- preserves _ (ret _) => apply preserves_ret; apply _
  | |- preserves _ (throw _) => apply preserves_throw; apply _
  | |- preserves _ (lift _) => apply preserves_lift; apply _
  | |- preserves _ Date_now => apply preserves_Date_now; apply _
  | |- preserves _ (match ?x with _ => _ end) => destruct x
  | |- preserves _ (if ?x then _ else _) => destruct x
  | |- preserves _ _ => solve [auto with preserves]
  end.

Ltac solve_preserves := repeat preserves_step.

Section connectors_preserve.
Context (R : World → World → Prop) `{!PreOrder R}.

(** The calls the connectors make. *)
Hypothesis R_emit : ∀ env ev, preserves R (emit env ev).
Hypothesis R_console : ∀ ev, preserves R (console ev).
Hypothesis R_sleep : ∀ ms, preserves R (sleep ms).

#[local] Hint Resolve R_emit R_console R_sleep : preserves.

Lemma preserves_searchCraigslist env q : preserves R (searchCraigslist env q).
Proof.
  unfold searchCraigslist, searchCraigslist_try, axios_get_craigslist. solve_preserves.
Qed.

Lemma preserves_for_terms env terms results : preserves R (for_terms env terms results).
Proof.
  revert results. induction terms as [|term rest IH]; intros results; simpl.
  - solve_preserves.
  - unfold axios_get_reddit. solve_preserves.
Qed.

#[local] Hint Resolve preserves_searchCraigslist preserves_for_terms : preserves.

Lemma preserves_searchReddit env q : preserves R (searchReddit env q).
Proof. unfold searchReddit, searchReddit_try. solve_preserves. Qed.

#[local] Hint Resolve preserves_searchReddit : preserves.

Lemma preserves_Promise_all {A} (ps : list (M A)) :
  Forall (preserves R) ps → preserves R (Promise_all ps).
Proof. induction 1; simpl; solve_preserves. Qed.

Lemma preserves_searchAllPlatforms env bookTitle author :
  preserves R (searchAllPlatforms env bookTitle author).
Proof.
  unfold searchAllPlatforms. solve_preserves.
  apply preserves_Promise_all. unfold catch_empty. repeat constructor; solve_preserves.
Qed.
End connectors_preserve.

Lemma read_only_searchAllPlatforms env bookTitle author :
  read_only (searchAllPlatforms env bookTitle author).
Proof. apply preserves_searchAllPlatforms; [apply _|..]; by intros; intros w. Qed.

Lemma trace_grows_emit env ev : preserves trace_grows (emit env ev).
Proof. intros w. by exists [ev]. Qed.

Lemma trace_grows_console ev : preserves trace_grows (console ev).
Proof. intros w. by exists [ev]. Qed.

Lemma trace_grows_sleep ms : preserves trace_grows (sleep ms).
Proof. intros w. by exists [EvSleep ms]. Qed.

(** ** Strings *)

Lemma append_cons c s t : String c s +:+ t = String c (s +:+ t).
Proof. reflexivity. Qed.

Lemma append_empty_r s : s +:+ "" = s.
Proof. induction s as [|c s IH]; [done|]. by rewrite append_cons, IH. Qed.

Lemma append_assoc s1 s2 s3 : (s1 +:+ s2) +:+ s3 = s1 +:+ s2 +:+ s3.
Proof. induction s1 as [|c s1 IH]; [done|]. by rewrite !append_cons, IH. Qed.

Lemma startsWith_spec s p : JS.startsWith s p = true ↔ ∃ post, s = p +:+ post.
Proof.
  revert s. induction p as [|a p IH]; intros s; simpl.
  - split; [intros _; exists s; reflexivity|done].
  - destruct s as [|b s].
    + split; [done|]. intros [post Hp]. by rewrite append_cons in Hp.
    + destruct (Ascii.eqb_spec a b) as [->|Hab].
      * rewrite IH. split; intros [post Hp]; exists post.
        -- rewrite append_cons. congruence.
        -- rewrite append_cons in Hp. congruence.
      * split; [done|]. intros [post Hp]. rewrite append_cons in Hp. congruence.
Qed.

Lemma includes_spec s sub : JS.includes s sub = true ↔ contains s sub.
Proof.
  split.
  - induction s as [|c s IH]; simpl.
    + destruct (JS.startsWith "" sub) eqn:E; [|done].
      intros _. apply startsWith_spec in E as [post ->]. exists "", post; reflexivity.
    + destruct (JS.startsWith (String c s) sub) eqn:E.
      * intros _. apply startsWith_spec in E as [post ->]. exists "", post; reflexivity.
      * intros (pre & post & ->)%IH. exists (String c pre), post; reflexivity.
  - intros (pre & post & ->). induction pre as [|c pre IH].
    + change ("" +:+ sub +:+ post) with (sub +:+ post).
      assert (E : JS.startsWith (sub +:+ post) sub = true)
        by (apply startsWith_spec; exists post; reflexivity).
      destruct (sub +:+ post); simpl in *; by rewrite E.
    + rewrite append_cons. simpl. destruct (JS.startsWith _ sub); [done|]. exact IH.
Qed.

Lemma split_nonempty sep s : JS.split sep s ≠ [].
Proof.
  induction s as [|c s IH]; simpl; [done|].
  destruct (Ascii.eqb c sep); [done|]. by destruct (JS.split sep s).
Qed.

(** The pieces of [s.split(sep)] joined by [sep] give [s] back. *)
Lemma split_join sep s : JS.join (String sep "") (JS.split sep s) = s.
Proof.
  induction s as [|c s IH]; simpl; [done|].
  pose proof (split_nonempty sep s) as Hne.
  destruct (Ascii.eqb_spec c sep) as [->|Hc].
  - destruct (JS.split sep s) as [|w ws]; [done|].
    rewrite <- IH. reflexivity.
  - destruct (JS.split sep s) as [|w ws]; [done|].
    rewrite <- IH. by destruct ws.
Qed.

(** ** The Craigslist connector *)

Lemma relatesToBooks_spec searchQuery title :
  relatesToBooks searchQuery (JS.toLowerCase title) = true ↔ titleRelates searchQuery title.
Proof.
  unfold relatesToBooks, titleRelates. cbv zeta.
  rewrite !orb_true_iff, !includes_spec, existsb_exists.
  split.
  - intros [[[?|?]|?]|(word & Hin & Hw)]; auto.
    do 3 right. exists word. split; [by apply list_elem_of_In|by apply includes_spec].
  - intros [?|[?|[?|(word & Hin & Hw)]]]; auto.
    right. exists word. split; [by apply list_elem_of_In|by apply includes_spec].
Qed.

Lemma keepsRow_spec searchQuery element :
  keepsRow searchQuery element = true
  ↔ titleRelates searchQuery (JS.trim (result_title element)).
Proof. apply relatesToBooks_spec. Qed.

(** The iteration stops at index 8 and pushes the rows that pass the test,
    in order. *)
Lemma each_row_filter searchQuery index rows results :
  0 ≤ index →
  each_row searchQuery index rows results
  = results ++ (craigslistResult <$>
                 List.filter (keepsRow searchQuery) (take (Z.to_nat (8 - index)) rows)).
Proof.
  revert index results. induction rows as [|element rest IH]; intros index results Hi; simpl.
  - by rewrite take_nil, app_nil_r.
  - destruct (Z.leb_spec 8 index) as [Hge|Hlt].
    + replace (Z.to_nat (8 - index)) with 0%nat by lia. simpl. by rewrite app_nil_r.
    + replace (Z.to_nat (8 - index)) with (S (Z.to_nat (8 - (index + 1)))) by lia.
      rewrite IH by lia. simpl. fold (keepsRow searchQuery element).
      destruct (keepsRow searchQuery element); simpl; [|done].
      by rewrite <- app_assoc.
Qed.

Lemma filter_bool_sublist {A} (p : A → bool) (l : list A) : List.filter p l `sublist_of` l.
Proof.
  induction l as [|x l IH]; simpl; [done|].
  destruct (p x); [by apply sublist_skip|by apply sublist_cons].
Qed.

Lemma searchCraigslist_run env searchQuery w :
  searchCraigslist env searchQuery w
  = let w1 := (emit env (EvHttpCraigslist searchQuery) w).2 in
    match craigslist_rows env (clock w) searchQuery with
    | Ok rows => (Ok (each_row searchQuery 0 rows []), w1)
    | Throw e => (Ok [], set_trace (trace w1 ++ [EvError "Craigslist search error:"]) w1)
    end.
Proof.
  unfold searchCraigslist, searchCraigslist_try, axios_get_craigslist, try_catch, bind,
    Date_now, emit, lift, console, ret. simpl.
  by destruct (craigslist_rows env (clock w) searchQuery).
Qed.


Lemma split_app_sep sep a b :
  JS.split sep (a +:+ String sep b) = JS.split sep a ++ JS.split sep b.
Proof.
  induction a as [|c a IH].
  - change ("" +:+ String sep b) with (String sep b). simpl. by rewrite Ascii.eqb_refl.
  - rewrite append_cons. simpl. destruct (Ascii.eqb c sep); [by rewrite IH|].
    rewrite IH. pose proof (split_nonempty sep a) as Hne.
    by destruct (JS.split sep a).
Qed.

Lemma has_empty_piece_split searchQuery :
  has_empty_piece searchQuery → "" ∈ JS.split " "%char searchQuery.
Proof.
  intros [->|[[rest ->]|[[front ->]|(pre & post & ->)]]].
  - by left.
  - by left.
  - rewrite (split_app_sep " "%char front ""). apply elem_of_app. right. by left.
  - change (pre +:+ "  " +:+ post) with (pre +:+ String " "%char (String " "%char post)).
    rewrite split_app_sep. apply elem_of_app. right. simpl. by left.
Qed.

Lemma includes_empty s : JS.includes s "" = true.
Proof. by destruct s. Qed.


(** *** Letter case *)

Lemma capital_spec n :
  ((65 <=? n) && (n <=? 90) || (192 <=? n) && (n <=? 222) && negb (n =? 215))%N = true
  ↔ (65 ≤ n ∧ n ≤ 90 ∨ 192 ≤ n ∧ n ≤ 222 ∧ n ≠ 215)%N.
Proof.
  rewrite orb_true_iff, !andb_true_iff, negb_true_iff, !N.leb_le, N.eqb_neq. tauto.
Qed.

Lemma lower_char_N c :
  N_of_ascii (JS.lower_char c)
  = (if ((65 <=? N_of_ascii c) && (N_of_ascii c <=? 90)
         || (192 <=? N_of_ascii c) && (N_of_ascii c <=? 222)
            && negb (N_of_ascii c =? 215))%N
     then N_of_ascii c + 32 else N_of_ascii c)%N.
Proof.
  unfold JS.lower_char. cbv zeta. pose proof (N_ascii_bounded c) as Hc.
  destruct (_ || _) eqn:Ecap; [|done].
  apply capital_spec in Ecap. apply N_ascii_embedding. lia.
Qed.

Lemma N_of_ascii_inj a b : N_of_ascii a = N_of_ascii b → a = b.
Proof. intros H. by rewrite <- (ascii_N_embedding a), <- (ascii_N_embedding b), H. Qed.

Ltac letter_cases a b :=
  pose proof (N_ascii_bounded a); pose proof (N_ascii_bounded b);
  let Ea := fresh "Ea" in
  let Eb := fresh "Eb" in
  destruct ((65 <=? N_of_ascii a) && (N_of_ascii a <=? 90)
            || (192 <=? N_of_ascii a) && (N_of_ascii a <=? 222)
               && negb (N_of_ascii a =? 215))%N eqn:Ea;
  [apply capital_spec in Ea|apply not_true_iff_false in Ea; rewrite capital_spec in Ea];
  (destruct ((65 <=? N_of_ascii b) && (N_of_ascii b <=? 90)
             || (192 <=? N_of_ascii b) && (N_of_ascii b <=? 222)
                && negb (N_of_ascii b =? 215))%N eqn:Eb;
   [apply capital_spec in Eb|apply not_true_iff_false in Eb; rewrite capital_spec in Eb]).

Lemma same_letter_spec a b : same_letter a b ↔ JS.lower_char a = JS.lower_char b.
Proof.
  assert (Hn : same_letter a b
               ↔ (N_of_ascii a = N_of_ascii b
                  ∨ ((65 ≤ N_of_ascii a ∧ N_of_ascii a ≤ 90
                      ∨ 192 ≤ N_of_ascii a ∧ N_of_ascii a ≤ 222 ∧ N_of_ascii a ≠ 215)
                     ∧ N_of_ascii b = N_of_ascii a + 32)
                  ∨ ((65 ≤ N_of_ascii b ∧ N_of_ascii b ≤ 90
                      ∨ 192 ≤ N_of_ascii b ∧ N_of_ascii b ≤ 222 ∧ N_of_ascii b ≠ 215)
                     ∧ N_of_ascii a = N_of_ascii b + 32))%N).
  { unfold same_letter, small_form. cbv zeta. split.
    - intros [->|[?|?]]; auto.
    - intros [?%N_of_ascii_inj|[?|?]]; auto. }
  rewrite Hn. clear Hn. split.
  - intros Hab. apply N_of_ascii_inj. rewrite !lower_char_N.
    letter_cases a b; lia.
  - intros Hab%(f_equal N_of_ascii). rewrite !lower_char_N in Hab.
    letter_cases a b; lia.
Qed.

Lemma same_text_spec s t : same_text s t ↔ JS.toLowerCase s = JS.toLowerCase t.
Proof.
  revert t. induction s as [|a s IH]; intros [|b t]; simpl; try (split; [done|discriminate]).
  - done.
  - rewrite same_letter_spec, IH. split; [by intros [-> ->]|by intros [= -> ->]].
Qed.

Lemma toLowerCase_app s t : JS.toLowerCase (s +:+ t) = JS.toLowerCase s +:+ JS.toLowerCase t.
Proof. induction s as [|c s IH]; [done|]. rewrite append_cons. simpl. by rewrite IH. Qed.

Lemma toLowerCase_split title front back :
  JS.toLowerCase title = front +:+ back →
  ∃ t1 t2, title = t1 +:+ t2 ∧ JS.toLowerCase t1 = front ∧ JS.toLowerCase t2 = back.
Proof.
  revert title. induction front as [|a front IH]; intros title Ht.
  - by exists "", title.
  - destruct title as [|c title]; [done|]. rewrite append_cons in Ht. simpl in Ht.
    injection Ht as Hc Ht. destruct (IH title Ht) as (t1 & t2 & -> & <- & <-).
    exists (String c t1), t2. by rewrite append_cons, <- Hc.
Qed.

(** Inclusion among lower-cased texts is containment, case aside. *)
Lemma contains_ignoring_case_spec title word :
  contains (JS.toLowerCase title) (JS.toLowerCase word) ↔ contains_ignoring_case title word.
Proof.
  split.
  - intros (front & back & Ht).
    apply toLowerCase_split in Ht as (pre & rest & -> & <- & Hrest).
    apply toLowerCase_split in Hrest as (mid & post & -> & Hmid & <-).
    exists pre, mid, post. split; [done|]. by apply same_text_spec.
  - intros (pre & mid & post & -> & Hmid%same_text_spec).
    exists (JS.toLowerCase pre), (JS.toLowerCase post).
    by rewrite !toLowerCase_app, Hmid.
Qed.

(** *** The pieces of a query *)

Lemma contains_sep_cons c s sep :
  c ≠ sep → ¬ contains s (String sep "") → ¬ contains (String c s) (String sep "").
Proof.
  intros Hc Hs (pre & post & Heq). destruct pre as [|a pre].
  - change ("" +:+ String sep "" +:+ post) with (String sep post) in Heq. congruence.
  - rewrite append_cons in Heq. injection Heq as _ Heq. apply Hs. by exists pre, post.
Qed.

Lemma not_contains_empty sep : ¬ contains "" (String sep "").
Proof.
  intros (pre & post & Heq). destruct pre as [|a pre].
  - change ("" +:+ String sep "" +:+ post) with (String sep post) in Heq. discriminate.
  - rewrite append_cons in Heq. discriminate.
Qed.

(** [s.split(sep)] starts with the text before the first separator and goes
    on with the pieces of what follows it. *)
Lemma split_head sep q :
  ∃ w0, ¬ contains w0 (String sep "")
        ∧ ((q = w0 ∧ JS.split sep q = [w0])
           ∨ ∃ post, q = w0 +:+ String sep post
                     ∧ JS.split sep q = w0 :: JS.split sep post).
Proof.
  induction q as [|c q IH].
  - exists "". split; [apply not_contains_empty|by left].
  - simpl. destruct (Ascii.eqb_spec c sep) as [->|Hc].
    + exists "". split; [apply not_contains_empty|]. right. by exists q.
    + destruct IH as (w0 & Hw0 & [[-> Hs]|(post & -> & Hs)]); rewrite Hs;
        exists (String c w0); (split; [by apply contains_sep_cons|]).
      * by left.
      * right. exists post. by rewrite append_cons.
Qed.

Lemma split_no_sep sep w : ¬ contains w (String sep "") → JS.split sep w = [w].
Proof.
  intros Hw. destruct (split_head sep w) as (w0 & _ & [[<- Hs]|(post & -> & _)]); [done|].
  destruct Hw. by exists w0, post.
Qed.

Lemma length_append s t :
  String.length (s +:+ t) = (String.length s + String.length t)%nat.
Proof. induction s as [|c s IH]; [done|]. rewrite append_cons. simpl. by rewrite IH. Qed.

Lemma split_pieces q piece : piece ∈ JS.split " "%char q → piece_of q piece.
Proof.
  remember (String.length q) as n eqn:Hn. revert q piece Hn.
  induction n as [n IH] using lt_wf_ind. intros q piece Hn Hin.
  destruct (split_head " "%char q) as (w0 & Hw0 & [[-> Hs]|(post & -> & Hs)]);
    rewrite Hs in Hin.
  - apply list_elem_of_singleton in Hin as ->. split; [done|by left].
  - apply elem_of_cons in Hin as [->|Hin].
    + split; [done|]. right. left. by exists post.
    + destruct (IH (String.length post)) with (q := post) (piece := piece)
        as [Hpiece Hwhere]; [|done|done|].
      { subst n. rewrite length_append. simpl. lia. }
      split; [done|]. right. right.
      destruct Hwhere as [->|[[post' ->]|[[pre ->]|(pre & post' & ->)]]].
      * left. by exists w0.
      * right. by exists w0, post'.
      * left. exists (w0 +:+ " " +:+ pre). by rewrite !append_assoc.
      * right. exists (w0 +:+ " " +:+ pre), post'. by rewrite !append_assoc.
Qed.

Lemma pieces_split q piece : piece_of q piece → piece ∈ JS.split " "%char q.
Proof.
  intros [Hpiece%split_no_sep Hwhere].
  destruct Hwhere as [->|[[post ->]|[[pre ->]|(pre & post & ->)]]].
  - rewrite Hpiece. by left.
  - change (piece +:+ " " +:+ post) with (piece +:+ String " "%char post).
    rewrite split_app_sep, Hpiece. by left.
  - change (pre +:+ " " +:+ piece) with (pre +:+ String " "%char piece).
    rewrite split_app_sep, Hpiece. apply elem_of_app. right. by left.
  - change (pre +:+ " " +:+ piece +:+ " " +:+ post)
      with (pre +:+ String " "%char (piece +:+ String " "%char post)).
    rewrite !split_app_sep, Hpiece. apply elem_of_app. right. by left.
Qed.

Lemma empty_piece_has searchQuery : piece_of searchQuery "" → has_empty_piece searchQuery.
Proof.
  intros [_ [->|[[post ->]|[[pre ->]|(pre & post & ->)]]]].
  - by left.
  - right. left. by exists post.
  - right. right. left. by exists pre.
  - right. right. right. by exists pre, post.
Qed.

(** The test of the code keeps what the rule of the specification keeps,
    and everything when the query has an empty piece. *)
Lemma titleRelates_title_relates searchQuery title :
  titleRelates searchQuery title
  ↔ title_relates searchQuery title ∨ has_empty_piece searchQuery.
Proof.
  unfold titleRelates, title_relates. cbv zeta.
  pose proof (contains_ignoring_case_spec title "book") as Hbook.
  pose proof (contains_ignoring_case_spec title "novel") as Hnovel.
  pose proof (contains_ignoring_case_spec title "textbook") as Htextbook.
  change (JS.toLowerCase "book") with "book" in Hbook.
  change (JS.toLowerCase "novel") with "novel" in Hnovel.
  change (JS.toLowerCase "textbook") with "textbook" in Htextbook.
  rewrite Hbook, Hnovel, Htextbook. split.
  - intros [?|[?|[?|(token & Hin%split_pieces & Htoken%contains_ignoring_case_spec)]]];
      [tauto..|].
    destruct (decide (token = "")) as [->|Hne].
    + right. by apply empty_piece_has.
    + left. do 3 right. by exists token.
  - intros [[?|[?|[?|(token & [_ Hin%pieces_split] & Htoken%contains_ignoring_case_spec)]]]
           |Hempty%has_empty_piece_split]; [tauto..| |].
    + do 3 right. by exists token.
    + do 3 right. exists "". split; [done|]. by exists "", (JS.toLowerCase title).
Qed.

(** The rule of the specification on the pieces of [split]: only the
    pieces that are not empty count as tokens. *)
Lemma title_relates_pieces searchQuery title :
  title_relates searchQuery title
  ↔ JS.includes (JS.toLowerCase title) "book" = true
    ∨ JS.includes (JS.toLowerCase title) "novel" = true
    ∨ JS.includes (JS.toLowerCase title) "textbook" = true
    ∨ ∃ token, token ∈ JS.split " "%char searchQuery ∧ token ≠ ""
               ∧ JS.includes (JS.toLowerCase title) (JS.toLowerCase token) = true.
Proof.
  unfold title_relates.
  rewrite !includes_spec.
  rewrite <- (contains_ignoring_case_spec title "book"),
    <- (contains_ignoring_case_spec title "novel"),
    <- (contains_ignoring_case_spec title "textbook").
  change (JS.toLowerCase "book") with "book".
  change (JS.toLowerCase "novel") with "novel".
  change (JS.toLowerCase "textbook") with "textbook".
  split.
  - intros [?|[?|[?|(token & [Hne Hin%pieces_split] & Htoken)]]]; [tauto..|].
    do 3 right. exists token. by rewrite includes_spec, contains_ignoring_case_spec.
  - intros [?|[?|[?|(token & Hin%split_pieces & Hne & Htoken)]]]; [tauto..|].
    do 3 right. exists token. split; [done|].
    by rewrite <- contains_ignoring_case_spec, <- includes_spec.
Qed.

(** C8. Among the first eight rows of the page, [searchCraigslist] keeps a
    row exactly when its title contains, letter case aside, "book", "novel",
    "textbook" or a token of the query, or when the query has an empty
    piece (it is empty, starts or ends with a space, or has two spaces in
    a row): then every row is kept. "Red Couch for sale" is dropped for the
    query "Dune" and "Dune paperback book" is kept; for the query "Dune "
    with a space at its end, "Red Couch for sale" is kept although it
    contains none of the three words and no token of the query. *)
Theorem craigslist_relevance_filter env w searchQuery rows :
  (craigslist_rows env (clock w) searchQuery = Ok rows →
   (searchCraigslist env searchQuery w).1 = Ok (each_row searchQuery 0 rows []))
  ∧ (∃ kept,
       each_row searchQuery 0 rows [] = craigslistResult <$> kept
       ∧ kept `sublist_of` take 8 rows
       ∧ ∀ row, row ∈ take 8 rows →
           (row ∈ kept ↔ title_relates searchQuery (JS.trim (result_title row))
                         ∨ has_empty_piece searchQuery))
  ∧ ¬ title_relates "Dune" "Red Couch for sale"
  ∧ title_relates "Dune" "Dune paperback book"
  ∧ title_relates "Frank Herbert" "DUNE by HERBERT, hardcover"
  ∧ ¬ title_relates "Frank Herbert" "Dune, hardcover"
  ∧ each_row "Dune" 0
      [mkRow "Red Couch for sale" "$40" (Some "/c/1.html") "";
       mkRow "Dune paperback book" "$5" (Some "/b/2.html") ""] []
    = [craigslistResult (mkRow "Dune paperback book" "$5" (Some "/b/2.html") "")]
  ∧ ¬ title_relates "Dune " "Red Couch for sale"
  ∧ each_row "Dune " 0 [mkRow "Red Couch for sale" "$40" (Some "/c/1.html") ""] []
    = [craigslistResult (mkRow "Red Couch for sale" "$40" (Some "/c/1.html") "")].
Proof.
  split.
  { intros Hrows. rewrite searchCraigslist_run. simpl. by rewrite Hrows. }
  split.
  { exists (List.filter (keepsRow searchQuery) (take 8 rows)).
    split; [by rewrite each_row_filter|].
    split; [apply filter_bool_sublist|].
    intros row Hrow.
    rewrite <- titleRelates_title_relates, <- keepsRow_spec, list_elem_of_In, filter_In,
      <- list_elem_of_In.
    tauto. }
  assert (Hnone : ∀ searchQuery title,
            JS.includes (JS.toLowerCase title) "book" = false →
            JS.includes (JS.toLowerCase title) "novel" = false →
            JS.includes (JS.toLowerCase title) "textbook" = false →
            Forall (λ token, token = ""
                             ∨ JS.includes (JS.toLowerCase title) (JS.toLowerCase token) = false)
              (JS.split " "%char searchQuery) →
            ¬ title_relates searchQuery title).
  { intros q title Hb Hn Ht Htokens
      [?|[?|[?|(token & Hin & Hne & Htoken)]]]%title_relates_pieces; [congruence..|].
    rewrite Forall_forall in Htokens. destruct (Htokens token Hin); congruence. }
  split.
  { apply Hnone; [by vm_compute..|]. constructor; [by right|constructor]. }
  split; [apply title_relates_pieces; by left|].
  split.
  { do 3 right. exists "Herbert". split.
    - split; [done|]. split; [by intros ?%includes_spec|]. right. right. left.
      by exists "Frank".
    - exists "DUNE by ", "HERBERT", ", hardcover". split; [done|]. by apply same_text_spec. }
  split.
  { apply Hnone; [by vm_compute..|].
    constructor; [by right|]. constructor; [by right|constructor]. }
  split; [done|].
  split; [|done].
  apply Hnone; [by vm_compute..|].
  constructor; [by right|]. constructor; [by left|constructor].
Qed.

(** ** The Reddit connector *)

Lemma sellingPost_unflagged pd :
  sellingPost pd = true → pd_over_18 pd = false ∧ pd_subreddit_type pd = "public".
Proof.
  unfold sellingPost. cbv zeta. rewrite !andb_true_iff, negb_true_iff, String.eqb_eq. tauto.
Qed.

Lemma forEach_post_without_flagged posts results :
  forEach_post (List.filter unflagged posts) results = forEach_post posts results.
Proof.
  revert results. induction posts as [|post rest IH]; intros results; simpl; [done|].
  unfold unflagged at 1. destruct (post_data post) as [pd|] eqn:Hpd; simpl.
  - destruct (negb (pd_over_18 pd) && String.eqb (pd_subreddit_type pd) "public") eqn:Hflag.
    + simpl. by rewrite Hpd, IH.
    + rewrite IH. destruct (sellingPost pd) eqn:Hsell; [|done].
      apply sellingPost_unflagged in Hsell as [Ha Hp].
      rewrite Ha, Hp in Hflag. by rewrite String.eqb_refl in Hflag.
  - by rewrite Hpd.
Qed.

Lemma for_terms_without_flagged env terms results w :
  for_terms (without_flagged env) terms results w = for_terms env terms results w.
Proof.
  revert results w. induction terms as [|term rest IH]; intros results w; simpl; [done|].
  unfold bind, axios_get_reddit, bind, Date_now, emit, lift. simpl.
  destruct (reddit_json env (clock w) term) as [[[posts|]]|e]; simpl; [| |done].
  - rewrite forEach_post_without_flagged.
    destruct (forEach_post posts results); [|done]. apply IH.
  - apply IH.
Qed.

Lemma forEach_post_origin posts results results' :
  forEach_post posts results = Ok results' →
  ∀ r, r ∈ results' →
    r ∈ results
    ∨ ∃ post pd, post ∈ posts ∧ post_data post = Some pd ∧ r = redditResult pd
                 ∧ pd_over_18 pd = false ∧ pd_subreddit_type pd = "public".
Proof.
  revert results. induction posts as [|post rest IH]; intros results; simpl.
  - intros [= <-]. auto.
  - destruct (post_data post) as [pd|] eqn:Hpd; [|done].
    intros Hrun r Hr. destruct (IH _ Hrun r Hr) as [Hin|(post' & pd' & Hp & ?)].
    + destruct (sellingPost pd) eqn:Hsell; [|by left].
      apply elem_of_app in Hin as [Hin|Hin%list_elem_of_singleton]; [by left|].
      right. exists post, pd. apply sellingPost_unflagged in Hsell as [? ?].
      repeat split; [by left|done..].
    + right. exists post', pd'. split; [by right|done].
Qed.

Lemma for_terms_origin env terms results w out w' :
  for_terms env terms results w = (Ok out, w') →
  ∀ r, r ∈ out → r ∈ results ∨ from_unflagged_post env r.
Proof.
  revert results w. induction terms as [|term rest IH]; intros results w; simpl.
  - intros [= <- <-]. auto.
  - unfold bind at 1. unfold axios_get_reddit, bind, Date_now, emit, lift. simpl.
    destruct (reddit_json env (clock w) term) as [body|e] eqn:Hjson; [|done].
    destruct (children body) as [posts|] eqn:Hch; simpl.
    + destruct (forEach_post posts results) as [results1|e] eqn:Hposts; [|done].
      intros Hrun r Hr. destruct (IH _ _ Hrun r Hr) as [Hin|?]; [|by right].
      destruct (forEach_post_origin _ _ _ Hposts r Hin)
        as [?|(post & pd & ? & ? & ? & ? & ?)]; [by left|].
      right. by exists (clock w), term, body, posts, post, pd.
    + intros Hrun r Hr. exact (IH _ _ Hrun r Hr).
Qed.

Lemma searchReddit_run env searchQuery w :
  searchReddit env searchQuery w
  = match for_terms env (searchTerms searchQuery) [] w with
    | (Ok results, w') => (Ok (take 5 (uniqueByLink results)), w')
    | (Throw e, w') => (Ok [], set_trace (trace w' ++ [EvError "Reddit search error:"]) w')
    end.
Proof.
  unfold searchReddit, searchReddit_try, try_catch, bind, ret, console.
  by destruct (for_terms env (searchTerms searchQuery) [] w) as [[results|e] w'].
Qed.

(** C9. A post flagged as adult content, or from a subreddit that is not
    public, is never kept, whatever its text; taking such posts out of the
    Reddit answers changes nothing in what [searchReddit] does; and every
    result in its output was built from an unflagged post of a public
    subreddit. *)
Theorem reddit_content_filter env searchQuery w :
  (∀ pd, pd_over_18 pd = true ∨ pd_subreddit_type pd ≠ "public" → sellingPost pd = false)
  ∧ searchReddit (without_flagged env) searchQuery w = searchReddit env searchQuery w
  ∧ ∀ r, r ∈ match (searchReddit env searchQuery w).1 with Ok out => out | Throw _ => [] end →
         from_unflagged_post env r.
Proof.
  split.
  { intros pd Hflag. destruct (sellingPost pd) eqn:Hsell; [|done].
    apply sellingPost_unflagged in Hsell as [? ?]. destruct Hflag; congruence. }
  split.
  { by rewrite !searchReddit_run, for_terms_without_flagged. }
  rewrite searchReddit_run.
  destruct (for_terms env (searchTerms searchQuery) [] w) as [[results|e] w'] eqn:Hrun; simpl.
  - intros r Hr.
    assert (Hin : r ∈ results).
    { eapply elem_of_sublist; [|apply keepFirstPerLink_sublist].
      rewrite <- uniqueByLink_keepFirst. eapply elem_of_sublist; [exact Hr|apply sublist_take]. }
    destruct (for_terms_origin _ _ _ _ _ _ Hrun r Hin) as [Hnil|?]; [|done].
    by apply elem_of_nil in Hnil.
  - by intros r ?%elem_of_nil.
Qed.

(** ** Fault isolation in the aggregator *)

Lemma keepFirstPerLink_id seen (l : list SearchResult) :
  NoDup (link <$> l) → (∀ r, r ∈ l → link r ∉ seen) → keepFirstPerLink seen l = l.
Proof.
  revert seen. induction l as [|x l IH]; intros seen Hnd Hseen; simpl; [done|].
  rewrite fmap_cons in Hnd. apply NoDup_cons in Hnd as [Hx Hnd].
  rewrite bool_decide_eq_false_2 by (apply Hseen; left).
  f_equal. apply IH; [done|]. intros r Hr. rewrite elem_of_cons. intros [Heq|Hin].
  - apply Hx. rewrite <- Heq. by apply list_elem_of_fmap_2.
  - revert Hin. apply Hseen. by right.
Qed.

Lemma uniqueByLink_id (l : list SearchResult) : NoDup (link <$> l) → uniqueByLink l = l.
Proof.
  intros Hnd. rewrite uniqueByLink_keepFirst. apply keepFirstPerLink_id; [done|].
  intros r _. apply not_elem_of_nil.
Qed.

Lemma uniqueByLink_NoDup (l : list SearchResult) : NoDup (link <$> uniqueByLink l).
Proof. rewrite uniqueByLink_keepFirst. apply keepFirstPerLink_NoDup. Qed.

(** Every link of the input is still there after the duplicate filter. *)
Lemma uniqueByLink_links (l : list SearchResult) r :
  r ∈ l → link r ∈ link <$> uniqueByLink l.
Proof.
  intros Hr. rewrite uniqueByLink_keepFirst.
  destruct (keepFirstPerLink_earliest [] l (link r)) as (x & _ & Hx).
  - apply not_elem_of_nil.
  - by apply list_elem_of_fmap_2.
  - assert (Hin : x ∈ filter (λ r0, link r0 = link r) (keepFirstPerLink [] l))
      by (rewrite Hx; by left).
    apply list_elem_of_filter in Hin as [Hl Hin]. rewrite <- Hl.
    by apply list_elem_of_fmap_2.
Qed.

(** What [searchReddit] returns has no repeated link. *)
Lemma searchReddit_NoDup env searchQuery w rs w' :
  searchReddit env searchQuery w = (Ok rs, w') → NoDup (link <$> rs).
Proof.
  rewrite searchReddit_run.
  destruct (for_terms env (searchTerms searchQuery) [] w) as [[results|e] w1].
  - intros [= <- <-]. rewrite fmap_take.
    eapply sublist_NoDup; [apply uniqueByLink_NoDup|apply sublist_take].
  - intros [= <- <-]. constructor.
Qed.

Lemma searchCraigslist_total env searchQuery w :
  ∃ l w', searchCraigslist env searchQuery w = (Ok l, w')
          ∧ ∀ e w1, searchCraigslist_try env searchQuery w = (Throw e, w1) → l = [].
Proof.
  unfold searchCraigslist, try_catch, bind, console, ret.
  destruct (searchCraigslist_try env searchQuery w) as [[l|e] w1]; eauto.
  eexists _, _. split; [done|]. intros; discriminate.
Qed.

Lemma searchReddit_total env searchQuery w :
  ∃ l w', searchReddit env searchQuery w = (Ok l, w')
          ∧ ∀ e w1, searchReddit_try env searchQuery w = (Throw e, w1) → l = [].
Proof.
  unfold searchReddit, try_catch, bind, console, ret.
  destruct (searchReddit_try env searchQuery w) as [[l|e] w1]; eauto.
  eexists _, _. split; [done|]. intros; discriminate.
Qed.

(** The aggregator always returns a list. *)
Lemma searchAllPlatforms_total env bookTitle author w :
  ∃ out w', searchAllPlatforms env bookTitle author w = (Ok out, w').
Proof.
  destruct (searchCraigslist_total env (searchQueryOf bookTitle author)
              (set_trace (trace w ++ [EvAggregator bookTitle author]) w))
    as (cs & w1 & Hc & _).
  destruct (searchReddit_total env (searchQueryOf bookTitle author) w1) as (rs & w2 & Hr & _).
  eexists _, _. exact (searchAllPlatforms_run _ _ _ _ _ _ _ _ Hc Hr).
Qed.

(** C5, as the code has it. Each connector returns a list, the empty one
    when its [try] block throws, and so does the aggregator. When the
    Craigslist block throws, the aggregator returns the Reddit results
    unchanged. When the Reddit block throws, it returns the Craigslist
    results without the entries that repeat an earlier link: all of them,
    unchanged, when their links are distinct. *)
Theorem connector_fault_isolation env bookTitle author w :
  let q := searchQueryOf bookTitle author in
  let w0 := set_trace (trace w ++ [EvAggregator bookTitle author]) w in
  (∀ q w, ∃ l w', searchCraigslist env q w = (Ok l, w')
                  ∧ ∀ e w1, searchCraigslist_try env q w = (Throw e, w1) → l = [])
  ∧ (∀ q w, ∃ l w', searchReddit env q w = (Ok l, w')
                    ∧ ∀ e w1, searchReddit_try env q w = (Throw e, w1) → l = [])
  ∧ (∃ out w', searchAllPlatforms env bookTitle author w = (Ok out, w'))
  ∧ (∀ e w1 rs w2,
       searchCraigslist_try env q w0 = (Throw e, w1) →
       searchReddit env q (searchCraigslist env q w0).2 = (Ok rs, w2) →
       searchAllPlatforms env bookTitle author w = (Ok rs, w2))
  ∧ (∀ cs w1 e w2,
       searchCraigslist env q w0 = (Ok cs, w1) →
       searchReddit_try env q w1 = (Throw e, w2) →
       (searchAllPlatforms env bookTitle author w).1 = Ok (uniqueByLink cs)
       ∧ uniqueByLink cs `sublist_of` cs
       ∧ (∀ r, r ∈ cs → link r ∈ link <$> uniqueByLink cs)
       ∧ (NoDup (link <$> cs) → uniqueByLink cs = cs)).
Proof.
  intros q w0.
  split; [apply searchCraigslist_total|].
  split; [apply searchReddit_total|].
  split; [apply searchAllPlatforms_total|].
  split.
  - intros e w1 rs w2 Hthrow Hr.
    destruct (searchCraigslist_total env q w0) as (cs & w1' & Hc & Hnil).
    rewrite (Hnil _ _ Hthrow) in Hc. rewrite Hc in Hr. simpl in Hr.
    rewrite (searchAllPlatforms_run _ _ _ _ _ _ _ _ Hc Hr). simpl.
    by rewrite (uniqueByLink_id rs (searchReddit_NoDup _ _ _ _ _ Hr)).
  - intros cs w1 e w2 Hc Hthrow.
    destruct (searchReddit_total env q w1) as (rs & w2' & Hr & Hnil).
    rewrite (Hnil _ _ Hthrow) in Hr.
    rewrite (searchAllPlatforms_run _ _ _ _ _ _ _ _ Hc Hr), app_nil_r. simpl.
    split; [done|].
    split; [rewrite uniqueByLink_keepFirst; apply keepFirstPerLink_sublist|].
    split; [apply uniqueByLink_links|apply uniqueByLink_id].
Qed.

(** C5 as stated fails: with Reddit unreachable and two Craigslist rows
    that share one [href], the second Craigslist result is not in the
    aggregator's output. *)
Lemma isolation_drops_repeated_link :
  ¬ (∀ env bookTitle author w cs w1 e w2 out w3,
       searchCraigslist env (searchQueryOf bookTitle author)
         (set_trace (trace w ++ [EvAggregator bookTitle author]) w) = (Ok cs, w1) →
       searchReddit_try env (searchQueryOf bookTitle author) w1 = (Throw e, w2) →
       searchAllPlatforms env bookTitle author w = (Ok out, w3) →
       ∀ r, r ∈ cs → r ∈ out).
Proof.
  intros Hall.
  pose (env := sample_env (Ok [dune_row_1; dune_row_2]) (Throw NetworkError) true).
  pose (w := sample_world None).
  pose (w0 := set_trace (trace w ++ [EvAggregator "Dune" None]) w).
  assert (Hin : craigslistResult dune_row_2 ∈ [craigslistResult dune_row_1]).
  { apply (Hall env "Dune" None w
             [craigslistResult dune_row_1; craigslistResult dune_row_2]
             (searchCraigslist env "Dune" w0).2
             NetworkError
             (searchReddit_try env "Dune" (searchCraigslist env "Dune" w0).2).2
             [craigslistResult dune_row_1]
             (searchAllPlatforms env "Dune" None w).2).
    - by vm_compute.
    - by vm_compute.
    - by vm_compute.
    - right. left. }
  apply list_elem_of_singleton in Hin. by vm_compute in Hin.
Qed.

(** ** The daily batch job *)

Lemma searchedRecently_true env book now :
  searchedRecently env book now = true
  ↔ ∃ s t, lastSearched book = Some s ∧ s ≠ "" ∧ Date_parse env s = Some t
           ∧ now - 6 * 60 * 60 * 1000 < t.
Proof.
  unfold searchedRecently. cbv zeta. split.
  - destruct (lastSearched book) as [[|c s]|]; simpl; try done.
    destruct (Date_parse env (String c s)) as [t|] eqn:Hp; [|done].
    intros Hlt%Z.ltb_lt. by exists (String c s), t.
  - intros (s & t & -> & Hs & Hp & Hlt). destruct s as [|c s]; [done|]. simpl.
    rewrite Hp. by apply Z.ltb_lt.
Qed.

Lemma searchedRecently_false env book now :
  lastSearched book = None
  ∨ (∃ s t, lastSearched book = Some s ∧ Date_parse env s = Some t
            ∧ t ≤ now - 6 * 60 * 60 * 1000) →
  searchedRecently env book now = false.
Proof.
  unfold searchedRecently. cbv zeta. intros [->|(s & t & -> & Hp & Hle)]; [done|].
  destruct s as [|c s]; [done|]. simpl. rewrite Hp. by apply Z.ltb_ge.
Qed.

Lemma processBook_skip env userId userData bookId book w :
  searchedRecently env book (clock w) = true →
  processBook env userId userData (bookId, book) w
  = (Ok tt, set_trace (trace w ++ [EvLog "Skipping - searched recently"]) w).
Proof. intros Hrec. unfold processBook, bind, Date_now. simpl. by rewrite Hrec. Qed.

Lemma processBook_search env userId userData bookId book w :
  searchedRecently env book (clock w) = false →
  processBook env userId userData (bookId, book) w
  = try_catch (searchAndNotify env userId userData bookId book)
      (λ error, console (EvError "Error searching for book")) w.
Proof. intros Hrec. unfold processBook, bind, Date_now. simpl. by rewrite Hrec. Qed.

Lemma trace_grows_update_book env id iso : preserves trace_grows (update_book env id iso).
Proof.
  intros w. unfold update_book, bind, emit. simpl.
  destruct (books _ !! id); by exists [EvUpdateBook id iso].
Qed.

Lemma trace_grows_sendEmailToUser env email name bookTitle results :
  preserves trace_grows (sendEmailToUser env email name bookTitle results).
Proof.
  unfold sendEmailToUser, transporter_sendMail.
  apply preserves_try_catch; [apply _| |].
  - apply preserves_bind; [apply _| |intros; apply trace_grows_console].
    apply preserves_bind; [apply _|apply preserves_Date_now; apply _|]. intros now.
    apply preserves_bind; [apply _|apply trace_grows_emit|]. intros _.
    destruct (smtp_accepts env now _); [|apply preserves_throw; apply _].
    intros w. exists []. simpl. by rewrite app_nil_r.
  - intros e. apply preserves_bind; [apply _|apply trace_grows_console|].
    intros _. apply preserves_throw; apply _.
Qed.

Lemma batch_set_all_run env userId bookTitle results batch w :
  ∃ batch',
    batch_set_all env userId bookTitle results batch w
    = (Ok batch', set_next_id (next_id w + length results)%nat w)
    ∧ length batch' = (length batch + length results)%nat.
Proof.
  revert batch w. induction results as [|result rest IH]; intros batch w; simpl.
  - exists batch. unfold ret. split; [|lia].
    destruct w; unfold set_next_id; simpl. by rewrite Nat.add_0_r.
  - unfold bind at 1. unfold new_doc_id at 1. unfold bind at 1. unfold Date_now at 1.
    edestruct IH as (batch' & Hrun & Hlen). rewrite Hrun.
    exists batch'. split.
    + unfold set_next_id. simpl. do 2 f_equal. lia.
    + rewrite Hlen, length_app. simpl. lia.
Qed.

Lemma saveNotifications_run env userId bookTitle results w :
  ∃ batch,
    length batch = length results
    ∧ saveNotifications env userId bookTitle results w
      = (Ok tt,
         mkWorld (clock w + Z.max 0 (latency env (EvBatchCommit (length results))))
           (users w) (books w)
           (foldl (apply_write
                     (clock w + Z.max 0 (latency env (EvBatchCommit (length results)))))
                  (notifs w) batch)
           (outbox w)
           (trace w ++ [EvBatchCommit (length results); EvLog "Saved notifications"])
           (next_id w + length results)%nat).
Proof.
  destruct (batch_set_all_run env userId bookTitle results [] w) as (batch & Hrun & Hlen).
  exists batch. split; [done|].
  unfold saveNotifications, try_catch, bind. rewrite Hrun.
  unfold batch_commit, bind, emit, console, set_notifs, set_clock, set_trace, set_next_id.
  simpl. rewrite Hlen. simpl. by rewrite <- app_assoc.
Qed.

Lemma sendEmailToUser_accepted env email name bookTitle results w :
  smtp_accepts env (clock w) (mkMail email name bookTitle results) = true →
  sendEmailToUser env email name bookTitle results w
  = (Ok tt,
     mkWorld (clock w + Z.max 0 (latency env (EvSendMail (mkMail email name bookTitle results))))
       (users w) (books w) (notifs w)
       (outbox w ++ [mkMail email name bookTitle results])
       (trace w ++ [EvSendMail (mkMail email name bookTitle results); EvLog "Email sent"])
       (next_id w)).
Proof.
  intros Hok.
  unfold sendEmailToUser, transporter_sendMail, try_catch, bind, Date_now, emit, console.
  simpl. rewrite Hok. unfold set_trace, set_outbox, set_clock. simpl.
  by rewrite <- app_assoc.
Qed.

Lemma sendEmailToUser_rejected env email name bookTitle results w :
  smtp_accepts env (clock w) (mkMail email name bookTitle results) = false →
  sendEmailToUser env email name bookTitle results w
  = (Throw MailError,
     mkWorld (clock w + Z.max 0 (latency env (EvSendMail (mkMail email name bookTitle results))))
       (users w) (books w) (notifs w) (outbox w)
       (trace w ++ [EvSendMail (mkMail email name bookTitle results);
                    EvError "Error sending email:"])
       (next_id w)).
Proof.
  intros Hok.
  unfold sendEmailToUser, transporter_sendMail, try_catch, bind, Date_now, emit, console, throw.
  simpl. rewrite Hok. unfold set_trace, set_outbox, set_clock. simpl.
  by rewrite <- app_assoc.
Qed.

(** The last two steps of the [try] block: the update of [lastSearched]
    and the pause. *)
Lemma update_and_pause env bookId book w :
  books w !! bookId = Some book →
  (let* now := Date_now in
   update_book env bookId (toISOString env now) ;;; sleep 2000) w
  = (Ok tt,
     mkWorld
       (clock w + Z.max 0 (latency env (EvUpdateBook bookId (toISOString env (clock w)))) + 2000)
       (users w)
       (<[bookId := with_lastSearched book (toISOString env (clock w))]> (books w))
       (notifs w) (outbox w)
       (trace w ++ [EvUpdateBook bookId (toISOString env (clock w)); EvSleep 2000])
       (next_id w)).
Proof.
  intros Hb. unfold bind, Date_now, update_book, bind, emit, sleep. simpl.
  rewrite Hb. unfold set_trace, set_books, set_clock. simpl. by rewrite <- app_assoc.
Qed.

Lemma trace_grows_saveNotifications env userId bookTitle results :
  preserves trace_grows (saveNotifications env userId bookTitle results).
Proof.
  intros w. destruct (saveNotifications_run env userId bookTitle results w) as (batch & _ & ->).
  by eexists.
Qed.

Lemma trace_grows_Promise_all {A} (ps : list (M A)) :
  Forall (preserves trace_grows) ps → preserves trace_grows (Promise_all ps).
Proof.
  apply preserves_Promise_all;
    first [apply _|apply trace_grows_emit|apply trace_grows_console|apply trace_grows_sleep].
Qed.

Lemma trace_grows_searchCraigslist env q : preserves trace_grows (searchCraigslist env q).
Proof.
  apply preserves_searchCraigslist;
    first [apply _|apply trace_grows_emit|apply trace_grows_console|apply trace_grows_sleep].
Qed.

Lemma trace_grows_searchReddit env q : preserves trace_grows (searchReddit env q).
Proof.
  apply preserves_searchReddit;
    first [apply _|apply trace_grows_emit|apply trace_grows_console|apply trace_grows_sleep].
Qed.

#[local] Hint Resolve trace_grows_emit trace_grows_console trace_grows_sleep
  trace_grows_update_book trace_grows_sendEmailToUser trace_grows_saveNotifications
  trace_grows_searchCraigslist trace_grows_searchReddit : preserves.

(** A [try] block that starts with a call that returns goes on from the
    value and the world the call ends in. *)
Lemma try_catch_bind_run {A B} (m : M A) (k : A → M B) (h : Error → M B) w a w1 :
  m w = (Ok a, w1) → try_catch (bind m k) h w = try_catch (k a) h w1.
Proof. intros Hrun. unfold try_catch, bind. by rewrite Hrun. Qed.

(** The aggregator starts with its request to Craigslist for the query. *)
Lemma searchAllPlatforms_first_request env bookTitle author w out w1 :
  searchAllPlatforms env bookTitle author w = (out, w1) →
  ∃ evs,
    trace w1 = trace w ++ EvAggregator bookTitle author
                 :: EvHttpCraigslist (searchQueryOf bookTitle author) :: evs.
Proof.
  intros Hrun.
  set (w0 := set_trace (trace w ++ [EvAggregator bookTitle author]) w).
  destruct (searchCraigslist_total env (searchQueryOf bookTitle author) w0)
    as (cs & wc & Hc & _).
  destruct (searchReddit_total env (searchQueryOf bookTitle author) wc)
    as (rs & w2 & Hr & _).
  rewrite (searchAllPlatforms_run _ _ _ _ _ _ _ _ Hc Hr) in Hrun.
  injection Hrun as _ <-.
  assert (Hwc : ∃ evs, trace wc = trace w0 ++ EvHttpCraigslist (searchQueryOf bookTitle author)
                                    :: evs).
  { rewrite searchCraigslist_run in Hc. cbv zeta in Hc.
    destruct (craigslist_rows env (clock w0) (searchQueryOf bookTitle author));
      injection Hc as _ <-.
    - by exists [].
    - exists [EvError "Craigslist search error:"]. cbn. by rewrite <- app_assoc. }
  destruct Hwc as [evs Hwc].
  pose proof (trace_grows_searchReddit env (searchQueryOf bookTitle author) wc) as [evs' Hw2].
  rewrite Hr in Hw2. cbn [snd] in Hw2.
  exists (evs ++ evs'). rewrite Hw2, Hwc. unfold w0. cbn [trace set_trace].
  by rewrite <- !app_assoc.
Qed.

(** A book that is not skipped is searched: [searchAllPlatforms] is called
    on the book's title and author in the world as it is, and what follows
    starts from the world the call ends in. *)
Lemma processBook_enters_aggregator env userId userData bookId book w :
  searchedRecently env book (clock w) = false →
  ∃ results w1 requests rest,
    searchAllPlatforms env (book_title book) (book_author book) w = (Ok results, w1)
    ∧ trace w1 = trace w ++ EvAggregator (book_title book) (book_author book)
                   :: EvHttpCraigslist (searchQueryOf (book_title book) (book_author book))
                   :: requests
    ∧ trace (processBook env userId userData (bookId, book) w).2 = trace w1 ++ rest.
Proof.
  intros Hold. rewrite processBook_search by done.
  destruct (searchAllPlatforms_total env (book_title book) (book_author book) w)
    as (results & w1 & Hrun).
  destruct (searchAllPlatforms_first_request _ _ _ _ _ _ Hrun) as [requests Hrequests].
  exists results, w1, requests.
  unfold searchAndNotify. rewrite (try_catch_bind_run _ _ _ _ _ _ Hrun).
  lazymatch goal with
  | |- context [try_catch ?m ?h w1] =>
      assert (Hp : preserves trace_grows (try_catch m h)) by solve_preserves
  end.
  destruct (Hp w1) as [rest Hrest]. by exists rest.
Qed.

(** C2. A book whose [lastSearched] is later than six hours before now is
    skipped: the aggregator is not called, no request is made and no
    document changes, [lastSearched] included. A book without
    [lastSearched], or with one at or before that instant, is searched:
    [searchAllPlatforms] is called for its title and author, the request
    to Craigslist for that query is made, and the book's processing goes
    on from where the call ends. *)
Theorem throttle_six_hours env userId userData bookId book w :
  ((∃ s t, lastSearched book = Some s ∧ s ≠ "" ∧ Date_parse env s = Some t
           ∧ clock w - 6 * 60 * 60 * 1000 < t) →
   processBook env userId userData (bookId, book) w
   = (Ok tt, set_trace (trace w ++ [EvLog "Skipping - searched recently"]) w)
   ∧ books (processBook env userId userData (bookId, book) w).2 = books w)
  ∧ (lastSearched book = None
     ∨ (∃ s t, lastSearched book = Some s ∧ Date_parse env s = Some t
               ∧ t ≤ clock w - 6 * 60 * 60 * 1000) →
     ∃ results w1 requests rest,
       searchAllPlatforms env (book_title book) (book_author book) w = (Ok results, w1)
       ∧ trace w1 = trace w ++ EvAggregator (book_title book) (book_author book)
                      :: EvHttpCraigslist (searchQueryOf (book_title book) (book_author book))
                      :: requests
       ∧ trace (processBook env userId userData (bookId, book) w).2 = trace w1 ++ rest).
Proof.
  split.
  - intros Hrec%searchedRecently_true. by rewrite processBook_skip.
  - intros Hold%(searchedRecently_false env book (clock w)).
    by apply processBook_enters_aggregator.
Qed.

(** The search leaves every stored document as it was. *)
Lemma searchAllPlatforms_same_store env bookTitle author w out w1 :
  searchAllPlatforms env bookTitle author w = (out, w1) → same_store w w1.
Proof.
  intros Hrun. pose proof (read_only_searchAllPlatforms env bookTitle author w) as Hs.
  by rewrite Hrun in Hs.
Qed.

(** C4. When the aggregator returns no result for a book, no mail is sent
    and no notification is written, and the book's [lastSearched] becomes
    the time at which the search ended; its other fields and the other
    books stay as they were. *)
Theorem zero_results_suppressed env userId userData bookId book w w1 :
  books w !! bookId = Some book →
  searchedRecently env book (clock w) = false →
  searchAllPlatforms env (book_title book) (book_author book) w = (Ok [], w1) →
  ∃ w' book',
    processBook env userId userData (bookId, book) w = (Ok tt, w')
    ∧ outbox w' = outbox w
    ∧ notifs w' = notifs w
    ∧ books w' = <[bookId := book']> (books w)
    ∧ lastSearched book' = Some (toISOString env (clock w1))
    ∧ book_title book' = book_title book ∧ book_author book' = book_author book
    ∧ book_userId book' = book_userId book
    ∧ trace w' = trace w1 ++ [EvUpdateBook bookId (toISOString env (clock w1)); EvSleep 2000].
Proof.
  intros Hb Hold Hrun.
  destruct (searchAllPlatforms_same_store _ _ _ _ _ _ Hrun) as (_ & Hbooks & Hnotifs & Hout & _).
  rewrite processBook_search by done.
  unfold try_catch, searchAndNotify. unfold bind at 1. rewrite Hrun. simpl.
  unfold bind at 1. unfold ret at 1.
  rewrite (update_and_pause env bookId book w1) by (by rewrite Hbooks).
  eexists _, (with_lastSearched book (toISOString env (clock w1))).
  split; [done|]. simpl. by rewrite Hbooks.
Qed.

(** C3, as the code has it. For a book that is searched, the update of
    [lastSearched] is the step after the mail and the notifications. It is
    made when there is no result or the mail is accepted: the book's
    [lastSearched] is then the time read at that step, and its other
    fields and the other books are as before. When the mail transport
    rejects the message, the error is caught and logged, nothing is
    written, and the book with its [lastSearched] stays as it was. *)
Theorem lastSearched_after_processing env userId userData bookId book w results w1 :
  books w !! bookId = Some book →
  searchedRecently env book (clock w) = false →
  searchAllPlatforms env (book_title book) (book_author book) w = (Ok results, w1) →
  let m := mkMail (email userData) (displayName userData) (book_title book) results in
  ∃ w',
    processBook env userId userData (bookId, book) w = (Ok tt, w')
    ∧ if bool_decide (results = []) || smtp_accepts env (clock w1) m
      then
        let t := clock w1
                 + (if bool_decide (results = []) then 0
                    else Z.max 0 (latency env (EvSendMail m))
                         + Z.max 0 (latency env (EvBatchCommit (length results)))) in
        (∃ book',
           books w' = <[bookId := book']> (books w)
           ∧ lastSearched book' = Some (toISOString env t)
           ∧ book_title book' = book_title book ∧ book_author book' = book_author book
           ∧ book_userId book' = book_userId book)
        ∧ ∃ evs, trace w' = trace w1 ++ evs ++ [EvUpdateBook bookId (toISOString env t); EvSleep 2000]
      else
        books w' = books w
        ∧ books w' !! bookId = Some book
        ∧ notifs w' = notifs w
        ∧ outbox w' = outbox w
        ∧ trace w' = trace w1 ++ [EvSendMail m; EvError "Error sending email:";
                                  EvError "Error searching for book"].
Proof.
  intros Hb Hold Hrun m.
  destruct (searchAllPlatforms_same_store _ _ _ _ _ _ Hrun) as (_ & Hbooks & Hnotifs & Hout & _).
  rewrite processBook_search by done.
  unfold try_catch, searchAndNotify. unfold bind at 1. rewrite Hrun.
  destruct results as [|r results'].
  - simpl. unfold bind at 1. unfold ret at 1.
    rewrite (update_and_pause env bookId book w1) by (by rewrite Hbooks).
    eexists. split; [reflexivity|]. cbn [books trace].
    rewrite Z.add_0_r, Hbooks. split; [by eexists|]. by exists [].
  - set (results := r :: results') in *.
    rewrite bool_decide_eq_false_2 by done.
    change (0 <? length results)%nat with true. cbv iota.
    rewrite orb_false_l.
    destruct (smtp_accepts env (clock w1) m) eqn:Hmail.
    + unfold bind at 1. unfold bind at 1.
      rewrite (sendEmailToUser_accepted _ _ _ _ _ _ Hmail). fold m.
      set (w2 := mkWorld _ _ _ _ _ _ _).
      unfold bind at 1.
      destruct (saveNotifications_run env userId (book_title book) results w2)
        as (batch & _ & ->).
      set (w3 := mkWorld _ _ _ _ _ _ _).
      unfold console at 1.
      set (w4 := set_trace _ w3).
      assert (Hb4 : books w4 !! bookId = Some book) by (by rewrite <- Hbooks in Hb).
      rewrite (update_and_pause env bookId book w4 Hb4).
      assert (Hclock : clock w4
                       = clock w1 + (Z.max 0 (latency env (EvSendMail m))
                                     + Z.max 0 (latency env (EvBatchCommit (length results)))))
        by (cbn; lia).
      assert (Htrace : trace w4
                       = trace w1 ++ [EvSendMail m; EvLog "Email sent";
                                      EvBatchCommit (length results);
                                      EvLog "Saved notifications"; EvLog "Found results"])
        by (cbn; by rewrite <- !app_assoc).
      eexists. split; [reflexivity|]. cbn [books trace].
      rewrite Hclock, Htrace. split.
      * eexists. split; [change (books w4) with (books w1); by rewrite Hbooks|done].
      * eexists. by rewrite <- app_assoc.
    + unfold bind at 1. unfold bind at 1.
      rewrite (sendEmailToUser_rejected _ _ _ _ _ _ Hmail).
      unfold console. eexists. split; [reflexivity|].
      cbn [books notifs outbox trace set_trace]. rewrite <- app_assoc, Hbooks.
      by repeat split.
Qed.

(** C3 as stated fails: when the mail transport rejects the message for a
    book that has a result, the book is still without [lastSearched] after
    it was processed. *)
Lemma lastSearched_not_updated_on_mail_failure :
  ¬ (∀ env userId userData bookId book w,
       books w !! bookId = Some book →
       searchedRecently env book (clock w) = false →
       ∃ t, lastSearched <$> (books (processBook env userId userData (bookId, book) w).2 !! bookId)
            = Some (Some (toISOString env t))).
Proof.
  intros Hall.
  destruct (Hall (sample_env (Ok [dune_row_1]) (Throw NetworkError) false)
              "u1" sample_user "b1" (sample_book None) (sample_world None))
    as [t Ht]; [by vm_compute..|].
  assert (Hafter :
    lastSearched <$>
      (books (processBook (sample_env (Ok [dune_row_1]) (Throw NetworkError) false)
                "u1" sample_user ("b1", sample_book None) (sample_world None)).2 !! "b1")
    = Some None) by (by vm_compute).
  rewrite Hafter in Ht. discriminate.
Qed.

(** ** The loop over a user's books *)

#[global] Instance same_books_preorder : PreOrder same_books.
Proof. split; [done|]. unfold same_books. intros w1 w2 w3 ? ?. congruence. Qed.

#[global] Instance other_books_kept_preorder id : PreOrder (other_books_kept id).
Proof.
  split; [done|]. intros w1 w2 w3 H12 H23 id' Hne. by rewrite H23, H12.
Qed.

Lemma preserves_weaken (R R' : World → World → Prop) {A} (m : M A) :
  (∀ w w', R w w' → R' w w') → preserves R m → preserves R' m.
Proof. intros Himp Hm w. apply Himp, Hm. Qed.

Lemma same_books_searchAllPlatforms env bookTitle author :
  preserves same_books (searchAllPlatforms env bookTitle author).
Proof. apply preserves_searchAllPlatforms; [apply _|..]; by intros; intros w. Qed.

Lemma same_books_sendEmailToUser env email name bookTitle results :
  preserves same_books (sendEmailToUser env email name bookTitle results).
Proof.
  intros w. destruct (smtp_accepts env (clock w) (mkMail email name bookTitle results)) eqn:Hm.
  - by rewrite sendEmailToUser_accepted.
  - by rewrite sendEmailToUser_rejected.
Qed.

Lemma same_books_saveNotifications env userId bookTitle results :
  preserves same_books (saveNotifications env userId bookTitle results).
Proof.
  intros w. by destruct (saveNotifications_run env userId bookTitle results w) as (batch & _ & ->).
Qed.

Lemma other_books_kept_update_book env id iso :
  preserves (other_books_kept id) (update_book env id iso).
Proof.
  intros w id' Hne. unfold update_book, bind, emit. simpl.
  destruct (books w !! id); simpl; [|done]. by rewrite lookup_insert_ne.
Qed.

(** Processing a book touches no other book document. *)
Lemma other_books_kept_processBook env userId userData bookId book :
  preserves (other_books_kept bookId) (processBook env userId userData (bookId, book)).
Proof.
  assert (Hweak : ∀ A (m : M A), preserves same_books m → preserves (other_books_kept bookId) m).
  { intros A m. apply preserves_weaken. intros w w' Hs id' _. by rewrite Hs. }
  assert (Hconsole : ∀ ev, preserves (other_books_kept bookId) (console ev))
    by (by intros ev w).
  unfold processBook, searchAndNotify. cbn [fst snd].
  solve_preserves;
    first [ apply Hconsole
          | apply other_books_kept_update_book
          | apply Hweak; first [ apply same_books_searchAllPlatforms
                               | apply same_books_sendEmailToUser
                               | apply same_books_saveNotifications ]
          | by intros w ].
Qed.

(** The loop body catches what it throws. *)
Lemma processBook_total env userId userData bookDoc w :
  ∃ w', processBook env userId userData bookDoc w = (Ok tt, w').
Proof.
  unfold processBook, bind, Date_now, try_catch, console. cbn [fst snd].
  destruct (searchedRecently env bookDoc.2 (clock w)); [by eexists|].
  destruct (searchAndNotify env userId userData bookDoc.1 bookDoc.2 w) as [[[]|e] w1];
    by eexists.
Qed.

Lemma for_books_app env userId userData pre post w :
  for_books env userId userData (pre ++ post) w
  = for_books env userId userData post (for_books env userId userData pre w).2.
Proof.
  revert w. induction pre as [|doc pre IH]; intros w; [done|].
  cbn [app for_books]. unfold bind.
  destruct (processBook_total env userId userData doc w) as [w1 ->]. apply IH.
Qed.

(** What the query for a user's books returns: documents of the store,
    each once, all of that user. *)
Lemma get_books_of_snapshot env uid w docs w' :
  get_books_of env uid w = (Ok docs, w') →
  NoDup docs.*1
  ∧ ∀ doc, doc ∈ docs → books w' !! doc.1 = Some doc.2 ∧ book_userId doc.2 = uid.
Proof.
  unfold get_books_of, bind, emit. cbn. intros [= <- <-]. cbn [books set_clock set_trace].
  split.
  - eapply sublist_NoDup; [apply (NoDup_fst_map_to_list (books w))|].
    apply fmap_sublist, sublist_filter.
  - intros [id b] [Hu Hin]%list_elem_of_filter. split; [|done].
    by apply elem_of_map_to_list.
Qed.

Lemma for_books_keeps_later env userId userData pre bookId book w :
  bookId ∉ pre.*1 → books w !! bookId = Some book →
  books (for_books env userId userData pre w).2 !! bookId = Some book.
Proof.
  revert w. induction pre as [|[id b] pre IH]; intros w Hnotin Hb; [done|].
  rewrite fmap_cons, not_elem_of_cons in Hnotin. destruct Hnotin as [Hne Hnotin].
  cbn [for_books]. unfold bind.
  pose proof (other_books_kept_processBook env userId userData id b w bookId Hne) as Hkept.
  destruct (processBook_total env userId userData (id, b) w) as [w1 Hw1].
  rewrite Hw1 in *. cbn [snd] in Hkept. apply IH; [done|]. by rewrite Hkept.
Qed.

(** In the loop over a snapshot of the store, each book document is still
    what the snapshot says when its turn comes: the hypothesis of the
    theorems on [processBook] holds at every iteration. *)
Lemma for_books_snapshot env userId userData pre bookId book post w :
  NoDup (pre ++ (bookId, book) :: post).*1 →
  (∀ doc, doc ∈ pre ++ (bookId, book) :: post → books w !! doc.1 = Some doc.2) →
  books (for_books env userId userData pre w).2 !! bookId = Some book
  ∧ for_books env userId userData (pre ++ (bookId, book) :: post) w
    = for_books env userId userData post
        (processBook env userId userData (bookId, book)
           (for_books env userId userData pre w).2).2.
Proof.
  intros Hnd Hstore. split.
  - apply for_books_keeps_later.
    + rewrite fmap_app, fmap_cons in Hnd. apply NoDup_app in Hnd as (_ & Hdisj & _).
      intros Hin. apply (Hdisj _ Hin). by left.
    + apply (Hstore (bookId, book)). apply elem_of_app. right. by left.
  - rewrite for_books_app. cbn [for_books]. unfold bind.
    by destruct (processBook_total env userId userData (bookId, book)
                   (for_books env userId userData pre w).2) as [w1 ->].
Qed.

(** ** The callable operations *)

(** C7. [searchBook] rejects a call without authentication with
    'unauthenticated', and an authenticated call whose data is an object
    without a title, or with an empty one, with 'invalid-argument'. An
    authenticated call without data ([null] or [undefined]) is not rejected
    with 'invalid-argument': the pattern that reads the title throws a
    TypeError, before the check of the title and outside the [try] block.
    In the three cases nothing was done: the world is unchanged. A call
    that passes the checks returns the aggregator's results with the time
    of the answer and writes nothing: no notification, no book, no mail. *)
Theorem searchBook_validates_and_reads_only env data context w :
  (auth context = None →
   searchBook env data context w
   = (Throw (HttpsError "unauthenticated" "User must be authenticated"), w))
  ∧ (auth context ≠ None → data = None →
     searchBook env data context w = (Throw TypeError, w))
  ∧ (∀ fields,
       auth context ≠ None → data = Some fields →
       data_bookTitle fields = None ∨ data_bookTitle fields = Some "" →
       searchBook env data context w
       = (Throw (HttpsError "invalid-argument" "Book title is required"), w))
  ∧ "unauthenticated" ≠ "invalid-argument"
  ∧ TypeError ≠ HttpsError "invalid-argument" "Book title is required"
  ∧ (∀ uid fields bookTitle,
       auth context = Some uid → data = Some fields →
       data_bookTitle fields = Some bookTitle → bookTitle ≠ "" →
       ∃ out w1,
         searchAllPlatforms env bookTitle (data_author fields) w = (Ok out, w1)
         ∧ searchBook env data context w
           = (Ok (mkSearchBookResponse out (toISOString env (clock w1))), w1)
         ∧ notifs w1 = notifs w ∧ books w1 = books w
         ∧ outbox w1 = outbox w ∧ users w1 = users w).
Proof.
  split; [|split; [|split; [|split; [|split]]]].
  - intros Hauth. unfold searchBook. by rewrite Hauth.
  - intros Hauth ->. unfold searchBook. by destruct (auth context).
  - intros fields Hauth -> Htitle. unfold searchBook.
    destruct (auth context); [|done]. by destruct Htitle as [-> | ->].
  - done.
  - done.
  - intros uid fields bookTitle Hauth -> Htitle Hne. unfold searchBook.
    rewrite Hauth, Htitle.
    destruct bookTitle as [|c s]; [done|].
    destruct (searchAllPlatforms_total env (String c s) (data_author fields) w)
      as (out & w1 & Hrun).
    exists out, w1. split; [done|].
    destruct (searchAllPlatforms_same_store _ _ _ _ _ _ Hrun) as (? & ? & ? & ? & _).
    unfold try_catch, bind. rewrite Hrun. by repeat split.
Qed.

Lemma markNotificationRead_run env id n uid w :
  id ≠ "" → notifs w !! id = Some n →
  markNotificationRead env (Some id) (mkContext (Some uid)) w
  = (Ok (mkMarkReadResponse true),
     mkWorld (clock w + Z.max 0 (latency env (EvUpdateNotification id)))
       (users w) (books w)
       (<[id := mark_read n (clock w + Z.max 0 (latency env (EvUpdateNotification id)))]>
          (notifs w))
       (outbox w) (trace w ++ [EvUpdateNotification id]) (next_id w)).
Proof.
  intros Hid Hn. destruct id as [|c s]; [done|].
  unfold markNotificationRead, try_catch, bind, update_notification_read, bind, emit. simpl.
  by rewrite Hn.
Qed.

(** C10. For an authenticated caller and the id of a stored notification,
    [markNotificationRead] sets [read] and [readAt] on that notification
    and answers [{success: true}], whoever the caller is and whoever the
    notification belongs to: the caller's uid is never looked at. *)
Theorem markNotificationRead_ignores_owner env id n uid w :
  id ≠ "" → notifs w !! id = Some n →
  (∃ w' t,
     markNotificationRead env (Some id) (mkContext (Some uid)) w
     = (Ok (mkMarkReadResponse true), w')
     ∧ notifs w' = <[id := mark_read n t]> (notifs w)
     ∧ n_read (mark_read n t) = true ∧ n_readAt (mark_read n t) = Some t
     ∧ clock w ≤ t ∧ t = clock w')
  ∧ (∀ uid' notificationId w0,
       markNotificationRead env notificationId (mkContext (Some uid')) w0
       = markNotificationRead env notificationId (mkContext (Some uid)) w0).
Proof.
  intros Hid Hn. split; [|done].
  rewrite (markNotificationRead_run env id n uid w Hid Hn).
  eexists _, _. split; [reflexivity|]. cbn [notifs clock n_read n_readAt mark_read].
  repeat split. lia.
Qed.

(** ** The retention sweep *)

Section delete_keys.
Context {A : Type}.
Implicit Types (m : gmap string A) (keys : list string).

Lemma foldl_delete_subseteq m keys : foldl (λ m k, delete k m) m keys ⊆ m.
Proof.
  revert m. induction keys as [|k keys IH]; intros m; simpl; [done|].
  etrans; [apply IH|apply delete_subseteq].
Qed.

Lemma lookup_foldl_delete m keys i :
  foldl (λ m k, delete k m) m keys !! i = if decide (i ∈ keys) then None else m !! i.
Proof.
  revert m. induction keys as [|k keys IH]; intros m; cbn [foldl].
  - rewrite decide_False; [done|apply not_elem_of_nil].
  - rewrite IH. destruct (decide (i ∈ keys)) as [Hin|Hin].
    + rewrite decide_True; [done|by right].
    + destruct (decide (i = k)) as [->|Hne].
      * rewrite decide_True by left. apply lookup_delete_eq.
      * rewrite decide_False by (rewrite elem_of_cons; tauto).
        by apply lookup_delete_ne.
Qed.

Lemma size_foldl_delete m keys :
  NoDup keys → (∀ k, k ∈ keys → is_Some (m !! k)) →
  (size (foldl (λ m k, delete k m) m keys) + length keys = size m)%nat.
Proof.
  revert m. induction keys as [|k keys IH]; intros m Hnd Hin; simpl; [lia|].
  apply NoDup_cons in Hnd as [Hk Hnd].
  assert (Hrest : ∀ k', k' ∈ keys → is_Some (delete k m !! k')).
  { intros k' Hk'. rewrite lookup_delete_ne by congruence. apply Hin. by right. }
  pose proof (IH (delete k m) Hnd Hrest) as Hsize.
  rewrite map_size_delete_Some in Hsize by (apply Hin; left).
  assert (size m ≠ 0%nat); [|lia].
  apply map_size_non_empty_iff. intros ->.
  destruct (Hin k) as [x Hx]; [left|]. by rewrite lookup_empty in Hx.
Qed.

Lemma filter_foldl_delete (P : string * A → Prop) `{∀ x, Decision (P x)} m keys :
  filter P (foldl (λ m k, delete k m) m keys)
  = foldl (λ m k, delete k m) (filter P m) keys.
Proof.
  revert m. induction keys as [|k keys IH]; intros m; simpl; [done|].
  by rewrite IH, map_filter_delete.
Qed.
End delete_keys.

Lemma foldl_apply_delete t (m : gmap string Notification) (docs : list (string * Notification)) :
  foldl (apply_write t) m ((λ doc, WDelete doc.1) <$> docs)
  = foldl (λ m k, delete k m) m docs.*1.
Proof.
  revert m. induction docs as [|doc docs IH]; intros m; simpl; [done|]. apply IH.
Qed.

(** What the query returns: stored notifications created before the
    cutoff, each once. *)
Lemma notifications_before_spec cutoff n (m : gmap string Notification) :
  NoDup (notifications_before cutoff n m).*1
  ∧ (∀ d, d ∈ notifications_before cutoff n m → expired cutoff m !! d.1 = Some d.2)
  ∧ length (notifications_before cutoff n m) = (n `min` size (expired cutoff m))%nat.
Proof.
  unfold notifications_before, expired.
  set (P := λ d : string * Notification, n_createdAt d.2 < cutoff).
  set (fl := filter P (map_to_list m)).
  assert (Hperm : merge_sort createdAt_le fl ≡ₚ fl) by apply merge_sort_Permutation.
  assert (Hnd : NoDup fl.*1).
  { eapply sublist_NoDup; [apply (NoDup_fst_map_to_list m)|].
    apply fmap_sublist, sublist_filter. }
  split; [|split].
  - eapply sublist_NoDup; [|apply fmap_sublist, sublist_take].
    by rewrite Hperm.
  - intros [k x] Hd. simpl.
    assert (Hin : (k, x) ∈ fl).
    { rewrite <- Hperm. eapply elem_of_sublist; [exact Hd|apply sublist_take]. }
    apply list_elem_of_filter in Hin as [HP Hin].
    apply map_lookup_filter_Some. split; [|done]. by apply elem_of_map_to_list.
  - rewrite length_take, Hperm. f_equal.
    rewrite (map_filter_alt P m). fold fl.
    by rewrite map_size_list_to_map.
Qed.

Lemma batch_commit_run env batch w :
  batch_commit env batch w
  = (Ok tt,
     mkWorld (clock w + Z.max 0 (latency env (EvBatchCommit (length batch))))
       (users w) (books w)
       (foldl (apply_write (clock w + Z.max 0 (latency env (EvBatchCommit (length batch)))))
          (notifs w) batch)
       (outbox w) (trace w ++ [EvBatchCommit (length batch)]) (next_id w)).
Proof. reflexivity. Qed.

Lemma cleanupOldNotifications_run env w :
  let docs := notifications_before (thirtyDaysBefore env (clock w)) 500 (notifs w) in
  let t1 := clock w + Z.max 0 (latency env (EvQuery "notifications")) in
  cleanupOldNotifications env w
  = (Ok tt,
     match docs with
     | [] =>
         mkWorld t1 (users w) (books w) (notifs w) (outbox w)
           (trace w ++ [EvLog "Starting cleanup of old notifications...";
                        EvQuery "notifications";
                        EvLog "No old notifications to clean up"])
           (next_id w)
     | _ =>
         mkWorld (t1 + Z.max 0 (latency env (EvBatchCommit (length docs))))
           (users w) (books w)
           (foldl (λ m k, delete k m) (notifs w) docs.*1) (outbox w)
           (trace w ++ [EvLog "Starting cleanup of old notifications...";
                        EvQuery "notifications";
                        EvBatchCommit (length docs);
                        EvLog "Deleted old notifications"])
           (next_id w)
     end).
Proof.
  intros docs t1. subst t1.
  remember docs as l eqn:Hl. unfold docs in Hl. clear docs.
  unfold cleanupOldNotifications, bind, console, Date_now, try_catch,
    get_notifications_before, bind, emit.
  cbn [fst snd clock notifs trace set_trace set_clock users books outbox next_id].
  rewrite <- Hl. clear Hl. destruct l as [|doc docs'].
  - unfold set_trace, set_clock. cbn [clock users books notifs outbox trace next_id].
    rewrite <- !app_assoc. reflexivity.
  - rewrite (batch_commit_run env _ _). unfold set_trace, set_clock.
    cbn [clock users books notifs outbox trace next_id].
    rewrite length_fmap, foldl_apply_delete, <- !app_assoc. reflexivity.
Qed.

(** C6. One run of the sweep deletes notifications created before the
    thirty-day cutoff and nothing else, at most 500 of them, by one batch
    commit; with 600 such notifications it deletes 500 and 100 remain. *)
Theorem retention_sweep_cap env w :
  let cutoff := thirtyDaysBefore env (clock w) in
  let deleted := (500 `min` size (expired cutoff (notifs w)))%nat in
  ∃ w',
    cleanupOldNotifications env w = (Ok tt, w')
    ∧ notifs w' ⊆ notifs w
    ∧ (∀ id n, notifs w !! id = Some n → notifs w' !! id = None → n_createdAt n < cutoff)
    ∧ (size (notifs w') + deleted = size (notifs w))%nat
    ∧ (size (expired cutoff (notifs w')) + deleted = size (expired cutoff (notifs w)))%nat
    ∧ (deleted ≤ 500)%nat
    ∧ (size (expired cutoff (notifs w)) = 600%nat →
       (size (notifs w') + 500 = size (notifs w))%nat
       ∧ size (expired cutoff (notifs w')) = 100%nat)
    ∧ trace w'
      = trace w
        ++ [EvLog "Starting cleanup of old notifications..."; EvQuery "notifications"]
        ++ (if decide (deleted = 0%nat)
            then [EvLog "No old notifications to clean up"]
            else [EvBatchCommit deleted; EvLog "Deleted old notifications"])
    ∧ books w' = books w ∧ users w' = users w ∧ outbox w' = outbox w.
Proof.
  intros cutoff deleted.
  pose proof (cleanupOldNotifications_run env w) as Hrun. cbv zeta in Hrun.
  fold cutoff in Hrun.
  destruct (notifications_before_spec cutoff 500 (notifs w)) as (Hnd & Hin & Hlen).
  fold deleted in Hlen.
  remember (notifications_before cutoff 500 (notifs w)) as docs eqn:Hdocs_def.
  assert (Hpresent : ∀ k, k ∈ docs.*1 → is_Some (expired cutoff (notifs w) !! k)).
  { intros k ([k' x] & -> & Hd)%list_elem_of_fmap. rewrite (Hin _ Hd). by eexists. }
  assert (Hpresent' : ∀ k, k ∈ docs.*1 → is_Some (notifs w !! k)).
  { intros k [x Hx]%Hpresent. apply map_lookup_filter_Some in Hx as [Hx _]. by eexists. }
  assert (Hsize := size_foldl_delete (notifs w) docs.*1 Hnd Hpresent').
  assert (Hsize' := size_foldl_delete (expired cutoff (notifs w)) docs.*1 Hnd Hpresent).
  rewrite length_fmap, Hlen in Hsize, Hsize'.
  assert (Hresult : ∃ w',
    cleanupOldNotifications env w = (Ok tt, w')
    ∧ notifs w' = foldl (λ m k, delete k m) (notifs w) docs.*1
    ∧ trace w'
      = trace w
        ++ [EvLog "Starting cleanup of old notifications..."; EvQuery "notifications"]
        ++ (if decide (deleted = 0%nat)
            then [EvLog "No old notifications to clean up"]
            else [EvBatchCommit deleted; EvLog "Deleted old notifications"])
    ∧ books w' = books w ∧ users w' = users w ∧ outbox w' = outbox w).
  { eexists. split; [exact Hrun|]. rewrite <- Hlen. clear.
    destruct docs as [|doc docs']; [by repeat split|].
    rewrite decide_False by done. by repeat split. }
  destruct Hresult as (w' & Hw' & Hnotifs & Htrace & Hbooks & Husers & Hout).
  exists w'. split; [done|]. rewrite Hnotifs.
  split; [apply foldl_delete_subseteq|].
  split.
  { intros id n Hn Hgone. rewrite lookup_foldl_delete in Hgone.
    destruct (decide (id ∈ docs.*1)) as [Hid|Hid]; [|congruence].
    destruct (Hpresent _ Hid) as [x Hx].
    apply map_lookup_filter_Some in Hx as [Hx HP]. simpl in HP. congruence. }
  split; [done|].
  split; [unfold expired in *; by rewrite filter_foldl_delete|].
  split; [unfold deleted; lia|].
  split; [|done].
  intros H600. unfold expired in *. rewrite filter_foldl_delete.
  unfold deleted in *. lia.
Qed.

(** ** More on the connectors *)

Lemma span_digits_spec s ds rest :
  span_digits s = (ds, rest) →
  s = ds +:+ rest ∧ digits_only ds = true
  ∧ ∀ d post, rest = String d post → is_digit d = false.
Proof.
  revert ds rest. induction s as [|c s IH]; intros ds rest; simpl.
  - intros [= <- <-]. repeat split. intros; discriminate.
  - destruct (is_digit c) eqn:Hc.
    + destruct (span_digits s) as [ds' rest'] eqn:Hs. intros [= <- <-].
      destruct (IH _ _ eq_refl) as (-> & Hd & Hrest).
      repeat split; [|done]. simpl. by rewrite Hc, Hd.
    + intros [= <- <-]. repeat split. intros d post [= <- <-]. done.
Qed.

Lemma price_after_dollar_some s p :
  price_after_dollar s = Some p → price_shape p ∧ ∃ post, s = p +:+ post.
Proof.
  unfold price_after_dollar. destruct (span_digits s) as [ds rest] eqn:Hspan.
  destruct (span_digits_spec _ _ _ Hspan) as (-> & Hds & _).
  destruct ds as [|d ds]; [done|].
  assert (Hplain : price_shape (String d ds) ∧ ∃ post, String d ds +:+ rest = String d ds +:+ post).
  { split; [|by exists rest]. exists (String d ds). repeat split; [done|done|by left]. }
  destruct rest as [|c1 rest1]; [by intros [= <-]|].
  destruct (Ascii.eqb_spec c1 "."%char) as [->|Hc1].
  - destruct rest1 as [|d1 [|d2 rest']]; [by intros [= <-]..|].
    destruct (is_digit d1 && is_digit d2) eqn:Hfrac; [|by intros [= <-]].
    apply andb_true_iff in Hfrac as [H1 H2]. intros [= <-]. split.
    + exists (String d ds). repeat split; [done|done|]. right. by exists d1, d2.
    + exists rest'. by rewrite append_assoc.
  - destruct c1 as [[] [] [] [] [] [] [] []]; try (by intros [= <-]). by destruct Hc1.
Qed.

Lemma price_after_dollar_none s :
  price_after_dollar s = None → ∀ d post, s = String d post → is_digit d = false.
Proof.
  unfold price_after_dollar. destruct (span_digits s) as [ds rest] eqn:Hspan.
  destruct (span_digits_spec _ _ _ Hspan) as (-> & _ & Hrest).
  destruct ds as [|d ds]; [exact (λ _, Hrest)|].
  intros Hnone. exfalso. revert Hnone.
  destruct rest as [|c1 rest1]; [done|].
  destruct c1 as [[] [] [] [] [] [] [] []]; try done.
  destruct rest1 as [|d1 [|d2 rest']]; try done.
  by destruct (is_digit d1 && is_digit d2).
Qed.

Lemma no_dollar_digit_cons c s :
  (c = "$"%char → ∀ d post, s = String d post → is_digit d = false) →
  no_dollar_digit s → no_dollar_digit (String c s).
Proof.
  intros Hhead Htail [|c' pre] d post Heq.
  - injection Heq as -> ->. by eapply Hhead.
  - rewrite append_cons in Heq. injection Heq as -> ->. by eapply Htail.
Qed.

Lemma priceMatch_shape s p : priceMatch s = Some p → price_shape p.
Proof.
  induction s as [|c s IH]; simpl; [done|].
  destruct (Ascii.eqb c "$"%char); [|done].
  destruct (price_after_dollar s) as [p'|] eqn:Hp; [|done].
  intros [= <-]. by apply price_after_dollar_some in Hp as [? _].
Qed.

(** X1. [priceMatch] finds the first dollar sign that a digit follows and
    returns the digits after it, with a point and two digits when they
    come next; it returns nothing exactly when no dollar sign is followed
    by a digit. *)
Theorem priceMatch_first_price s :
  match priceMatch s with
  | Some p =>
      price_shape p
      ∧ ∃ pre post, s = pre +:+ "$" +:+ p +:+ post ∧ no_dollar_digit pre
  | None => no_dollar_digit s
  end.
Proof.
  induction s as [|c s IH]; simpl.
  - intros [|? ?] ? ? ?; discriminate.
  - destruct (Ascii.eqb_spec c "$"%char) as [->|Hc].
    + destruct (price_after_dollar s) as [p|] eqn:Hp.
      * apply price_after_dollar_some in Hp as [Hshape [post ->]].
        split; [done|]. exists "", post. split; [done|].
        intros [|? ?] ? ? ?; discriminate.
      * pose proof (price_after_dollar_none _ Hp) as Hhead.
        destruct (priceMatch s) as [p|].
        -- destruct IH as (Hshape & pre & post & -> & Hpre). split; [done|].
           exists (String "$"%char pre), post. split; [done|].
           apply no_dollar_digit_cons; [|done]. intros _ d post' ->.
           by apply (Hhead d (post' +:+ "$" +:+ p +:+ post)).
        -- apply no_dollar_digit_cons; [|done]. intros _. exact Hhead.
    + destruct (priceMatch s) as [p|].
      * destruct IH as (Hshape & pre & post & -> & Hpre). split; [done|].
        exists (String c pre), post. split; [done|].
        by apply no_dollar_digit_cons.
      * by apply no_dollar_digit_cons.
Qed.

Lemma uniqueByLink_sublist (l : list SearchResult) : uniqueByLink l `sublist_of` l.
Proof. rewrite uniqueByLink_keepFirst. apply keepFirstPerLink_sublist. Qed.

(** X2. The duplicate filter changes nothing when applied a second time,
    and never makes a list longer. *)
Theorem uniqueByLink_idempotent (l : list SearchResult) :
  uniqueByLink (uniqueByLink l) = uniqueByLink l
  ∧ (length (uniqueByLink l) ≤ length l)%nat.
Proof.
  split.
  - apply uniqueByLink_id, uniqueByLink_NoDup.
  - apply sublist_length, uniqueByLink_sublist.
Qed.

(** X3. [searchReddit] returns at most five results, no two with the same
    link. *)
Theorem searchReddit_at_most_five env searchQuery w :
  ∃ out w',
    searchReddit env searchQuery w = (Ok out, w')
    ∧ (length out ≤ 5)%nat
    ∧ NoDup (link <$> out).
Proof.
  destruct (searchReddit_total env searchQuery w) as (out & w' & Hrun & _).
  exists out, w'. split; [done|].
  split; [|by eapply searchReddit_NoDup].
  rewrite searchReddit_run in Hrun.
  destruct (for_terms env (searchTerms searchQuery) [] w) as [[results|e] w1];
    injection Hrun as <- <-; [|simpl; lia].
  rewrite length_take. lia.
Qed.

Lemma forEach_post_missing_data posts results :
  mkPost None ∈ posts → forEach_post posts results = Throw TypeError.
Proof.
  revert results. induction posts as [|post rest IH]; intros results Hin.
  - by apply elem_of_nil in Hin.
  - simpl. destruct (post_data post) as [pd|] eqn:Hpd; [|done].
    apply IH. apply elem_of_cons in Hin as [<-|Hin]; [by simpl in Hpd|done].
Qed.

Lemma for_terms_breaks env terms term results w :
  term ∈ terms → term_breaks env term →
  ∃ e w', for_terms env terms results w = (Throw e, w').
Proof.
  intros Hin Hbreaks. revert results w.
  induction terms as [|term' rest IH]; intros results w; [by apply elem_of_nil in Hin|].
  simpl. unfold bind at 1. unfold axios_get_reddit, bind, Date_now, emit, lift. simpl.
  destruct (reddit_json env (clock w) term') as [body|e] eqn:Hjson; [|by eexists _, _].
  destruct (children body) as [posts|] eqn:Hch; simpl.
  - destruct (forEach_post posts results) as [results1|e] eqn:Hposts; [|by eexists _, _].
    apply elem_of_cons in Hin as [->|Hin]; [|by apply IH].
    specialize (Hbreaks (clock w)). rewrite Hjson in Hbreaks.
    destruct Hbreaks as (posts' & Hch' & Hmissing). rewrite Hch in Hch'.
    injection Hch' as <-. by rewrite forEach_post_missing_data in Hposts.
  - apply elem_of_cons in Hin as [->|Hin]; [|by apply IH].
    specialize (Hbreaks (clock w)). rewrite Hjson in Hbreaks.
    destruct Hbreaks as (posts' & Hch' & _). congruence.
Qed.

(** X4. [searchReddit] is all or nothing: when the request for one of its
    three phrasings is rejected, or one listing has a child without
    [data], it returns the empty list, whatever the other requests
    found. *)
Theorem searchReddit_all_or_nothing env searchQuery term w :
  term ∈ searchTerms searchQuery → term_breaks env term →
  ∃ w',
    searchReddit env searchQuery w = (Ok [], w')
    ∧ last (trace w') = Some (EvError "Reddit search error:")
    ∧ same_store w w'.
Proof.
  intros Hin Hbreaks.
  destruct (for_terms_breaks env _ term [] w Hin Hbreaks) as (e & w1 & Hrun).
  assert (Hstore : preserves same_store (for_terms env (searchTerms searchQuery) []))
    by (apply preserves_for_terms; [apply _|..]; by intros; intros ?).
  specialize (Hstore w). rewrite Hrun in Hstore.
  rewrite searchReddit_run, Hrun. eexists. split; [done|].
  split; [apply last_snoc|]. etrans; [exact Hstore|]. by repeat split.
Qed.

Lemma filter_bool_all {A} (p : A → bool) (l : list A) :
  (∀ x, x ∈ l → p x = true) → List.filter p l = l.
Proof.
  induction l as [|x l IH]; intros Hall; simpl; [done|].
  rewrite (Hall x) by left. f_equal. apply IH. intros y Hy. apply Hall. by right.
Qed.

(** X5. A query with an empty piece between spaces (an empty query, a
    leading or trailing space, two spaces in a row) disables the relevance
    test: every one of the first eight rows is kept, whatever its title. *)
Theorem empty_piece_keeps_every_row searchQuery rows :
  has_empty_piece searchQuery →
  each_row searchQuery 0 rows [] = craigslistResult <$> take 8 rows.
Proof.
  intros Hpiece%has_empty_piece_split.
  rewrite each_row_filter by done. simpl. f_equal.
  apply filter_bool_all. intros row _. unfold keepsRow, relatesToBooks.
  rewrite !orb_true_iff. right. apply existsb_exists. exists "".
  split; [by apply list_elem_of_In|apply includes_empty].
Qed.

Lemma craigslistResult_shape element :
  condition (craigslistResult element) = Some "Used"
  ∧ seller (craigslistResult element) = None
  ∧ price (craigslistResult element) ≠ ""
  ∧ JS.startsWith (link (craigslistResult element)) "http" = true
  ∧ JS.startsWith (source (craigslistResult element)) "Craigslist" = true.
Proof.
  unfold craigslistResult. cbn [condition seller price link source].
  split; [done|]. split; [done|]. split; [|split; [|done]].
  - by destruct (JS.trim (result_price element)).
  - destruct (result_href element) as [l|]; [|done].
    by destruct (JS.startsWith l "http") eqn:Hl.
Qed.

(** X6. [searchCraigslist] returns at most eight results; each is marked
    "Used", has no seller, a non-empty price text, a source that starts
    with "Craigslist" and a link that starts with "http". *)
Theorem searchCraigslist_results_shape env searchQuery w :
  ∃ out w',
    searchCraigslist env searchQuery w = (Ok out, w')
    ∧ (length out ≤ 8)%nat
    ∧ ∀ r, r ∈ out →
        condition r = Some "Used" ∧ seller r = None ∧ price r ≠ ""
        ∧ JS.startsWith (link r) "http" = true
        ∧ JS.startsWith (source r) "Craigslist" = true.
Proof.
  rewrite searchCraigslist_run. cbv zeta.
  destruct (craigslist_rows env (clock w) searchQuery) as [rows|e].
  - eexists _, _. split; [done|]. rewrite each_row_filter by done. simpl.
    split.
    + rewrite length_fmap.
      etrans; [apply sublist_length, filter_bool_sublist|]. rewrite length_take. lia.
    + intros r (element & -> & _)%list_elem_of_fmap. apply craigslistResult_shape.
  - eexists _, _. split; [done|]. split; [simpl; lia|]. by intros r ?%elem_of_nil.
Qed.

Lemma keepFirstPerLink_one_link seen (l : list SearchResult) k :
  (∀ r, r ∈ l → link r = k) → (length (keepFirstPerLink seen l) ≤ 1)%nat.
Proof.
  revert seen. induction l as [|x l IH]; intros seen Hall; simpl; [lia|].
  case_bool_decide as Hx.
  - apply IH. intros r Hr. apply Hall. by right.
  - replace (keepFirstPerLink (link x :: seen) l) with (@nil SearchResult); [simpl; lia|].
    symmetry. clear IH Hx. induction l as [|y l IHl]; simpl; [done|].
    rewrite bool_decide_eq_true_2.
    + apply IHl. intros r [->|Hr]%elem_of_cons; apply Hall; [left|right; by right].
    + apply elem_of_cons. left. rewrite (Hall x), (Hall y); [done|right; left|left].
Qed.

(** X7. A row without [href] gets the link
    "https://craigslist.orgundefined"; rows without [href] therefore all
    share one link, and the duplicate filter keeps at most one of them. *)
Theorem rows_without_href_collapse searchQuery rows :
  Forall (λ element, result_href element = None) rows →
  (∀ r, r ∈ each_row searchQuery 0 rows [] → link r = "https://craigslist.orgundefined")
  ∧ (length (uniqueByLink (each_row searchQuery 0 rows [])) ≤ 1)%nat.
Proof.
  intros Hrows.
  assert (Hlinks : ∀ r, r ∈ each_row searchQuery 0 rows [] →
                        link r = "https://craigslist.orgundefined").
  { rewrite each_row_filter by done. simpl.
    intros r (element & -> & Hin)%list_elem_of_fmap.
    apply list_elem_of_In, filter_In in Hin as [Hin%list_elem_of_In _].
    assert (Hel : element ∈ rows) by (eapply elem_of_sublist; [exact Hin|apply sublist_take]).
    rewrite Forall_forall in Hrows. unfold craigslistResult. cbn [link].
    by rewrite (Hrows _ Hel). }
  split; [done|]. rewrite uniqueByLink_keepFirst. by eapply keepFirstPerLink_one_link.
Qed.

(** X8. [searchAllPlatforms] returns at most thirteen results: eight from
    Craigslist and five from Reddit. *)
Theorem searchAllPlatforms_at_most_thirteen env bookTitle author w :
  ∃ out w',
    searchAllPlatforms env bookTitle author w = (Ok out, w')
    ∧ (length out ≤ 13)%nat.
Proof.
  destruct (searchCraigslist_total env (searchQueryOf bookTitle author)
              (set_trace (trace w ++ [EvAggregator bookTitle author]) w))
    as (cs & w1 & Hc & _).
  destruct (searchReddit_total env (searchQueryOf bookTitle author) w1) as (rs & w2 & Hr & _).
  exists (uniqueByLink (cs ++ rs)), w2.
  split; [exact (searchAllPlatforms_run _ _ _ _ _ _ _ _ Hc Hr)|].
  etrans; [apply sublist_length, uniqueByLink_sublist|]. rewrite length_app.
  assert (length cs ≤ 8)%nat.
  { rewrite searchCraigslist_run in Hc. cbv zeta in Hc.
    destruct (craigslist_rows env _ _) as [rows|e]; injection Hc as <- _; [|simpl; lia].
    rewrite each_row_filter by done. simpl. rewrite length_fmap.
    etrans; [apply sublist_length, filter_bool_sublist|]. rewrite length_take. lia. }
  assert (length rs ≤ 5)%nat; [|lia].
  rewrite searchReddit_run in Hr.
  destruct (for_terms env _ [] w1) as [[results|e] w3]; injection Hr as <- _; [|simpl; lia].
  rewrite length_take. lia.
Qed.

(** X19. Every result of [searchReddit] has no condition, a seller of the
    form "/u/..." , a source that starts with "Reddit r/", a link that
    starts with "https://reddit.com", and as price either a dollar amount
    found in the post or "See post for price". *)
Theorem searchReddit_results_shape env searchQuery w r :
  r ∈ match (searchReddit env searchQuery w).1 with Ok out => out | Throw _ => [] end →
  condition r = None
  ∧ (∃ author, seller r = Some ("/u/" +:+ author))
  ∧ JS.startsWith (source r) "Reddit r/" = true
  ∧ JS.startsWith (link r) "https://reddit.com" = true
  ∧ (price r = "See post for price" ∨ ∃ p, price r = "$" +:+ p ∧ price_shape p).
Proof.
  rewrite searchReddit_run.
  destruct (for_terms env (searchTerms searchQuery) [] w) as [[results|e] w'] eqn:Hrun;
    simpl; [|by intros ?%elem_of_nil].
  intros Hr.
  assert (Hin : r ∈ results).
  { eapply elem_of_sublist; [|apply uniqueByLink_sublist].
    eapply elem_of_sublist; [exact Hr|apply sublist_take]. }
  destruct (for_terms_origin _ _ _ _ _ _ Hrun r Hin)
    as [Hnil|(t & term & body & posts & post & pd & _ & _ & _ & _ & -> & _)];
    [by apply elem_of_nil in Hnil|].
  unfold redditResult. cbn [condition seller source link price].
  split; [done|]. split; [by eexists|]. split; [done|]. split; [done|].
  destruct (priceMatch _) as [p|] eqn:Hprice; [|by left].
  right. exists p. split; [done|]. by eapply priceMatch_shape.
Qed.

Lemma forEach_post_ok posts results :
  (∀ post, post ∈ posts → post_data post ≠ None) →
  ∃ results', forEach_post posts results = Ok results'.
Proof.
  revert results. induction posts as [|post rest IH]; intros results Hall; [by eexists|].
  simpl. destruct (post_data post) as [pd|] eqn:Hpd.
  - apply IH. intros p Hp. apply Hall. by right.
  - exfalso. by apply (Hall post); [left|].
Qed.

Lemma for_terms_trace env terms results w :
  (∀ t term, term ∈ terms →
     ∃ body, reddit_json env t term = Ok body
             ∧ ∀ posts post, children body = Some posts → post ∈ posts →
                             post_data post ≠ None) →
  ∃ out w',
    for_terms env terms results w = (Ok out, w')
    ∧ trace w' = trace w ++ concat ((λ term, [EvHttpReddit term; EvSleep 500]) <$> terms)
    ∧ clock w + 500 * Z.of_nat (length terms) ≤ clock w'.
Proof.
  revert results w. induction terms as [|term rest IH]; intros results w Hok.
  - eexists _, _. split; [reflexivity|]. simpl. rewrite app_nil_r. split; [done|lia].
  - cbn [for_terms]. unfold bind at 1. unfold axios_get_reddit, bind, Date_now, emit, lift.
    cbn [fst snd clock].
    destruct (Hok (clock w) term) as (body & Hjson & Hposts); [left|]. rewrite Hjson.
    assert (Hrest : ∀ results1 w1,
      trace w1 = trace w ++ [EvHttpReddit term; EvSleep 500] →
      clock w + 500 ≤ clock w1 →
      ∃ out w',
        for_terms env rest results1 w1 = (Ok out, w')
        ∧ trace w'
          = trace w ++ concat ((λ term, [EvHttpReddit term; EvSleep 500]) <$> term :: rest)
        ∧ clock w + 500 * Z.of_nat (length (term :: rest)) ≤ clock w').
    { intros results1 w1 Htr Hcl.
      destruct (IH results1 w1) as (out & w' & Hrun & Htrace & Hclock).
      { intros t term' Hin. apply Hok. by right. }
      exists out, w'. split; [exact Hrun|]. rewrite Htrace, Htr. split.
      - rewrite fmap_cons. cbn [concat]. by rewrite <- !app_assoc.
      - cbn [length]. lia. }
    destruct (children body) as [posts|] eqn:Hch.
    + destruct (forEach_post_ok posts results) as [results1 Hres];
        [intros post Hpost; by apply (Hposts posts post)|].
      rewrite Hres. unfold sleep at 1. apply Hrest.
      * cbn [trace set_clock set_trace]. by rewrite <- app_assoc.
      * cbn [clock set_clock set_trace]. lia.
    + unfold ret at 1. unfold sleep at 1. apply Hrest.
      * cbn [trace set_clock set_trace]. by rewrite <- app_assoc.
      * cbn [clock set_clock set_trace]. lia.
Qed.

(** X20. When every request is answered with a listing it can walk,
    [searchReddit] makes exactly three requests, for "<query> for sale",
    "selling <query>" and "<query> book sale" in this order, and pauses
    500 ms after each one, the last included. *)
Theorem searchReddit_three_requests env searchQuery w :
  reddit_answers env searchQuery →
  ∃ out w',
    searchReddit env searchQuery w = (Ok out, w')
    ∧ trace w'
      = trace w ++ [EvHttpReddit (searchQuery +:+ " for sale"); EvSleep 500;
                    EvHttpReddit ("selling " +:+ searchQuery); EvSleep 500;
                    EvHttpReddit (searchQuery +:+ " book sale"); EvSleep 500]
    ∧ clock w + 1500 ≤ clock w'.
Proof.
  intros Hok.
  destruct (for_terms_trace env (searchTerms searchQuery) [] w Hok)
    as (results & w' & Hrun & Htrace & Hclock).
  rewrite searchReddit_run, Hrun. eexists _, w'. split; [reflexivity|].
  split; [exact Htrace|]. cbn [searchTerms length] in Hclock. lia.
Qed.

(** ** More on the notification step *)

Lemma batch_set_all_writes env userId bookTitle results batch w :
  batch_set_all env userId bookTitle results batch w
  = (Ok (batch ++ writes_for env userId bookTitle (clock w) (next_id w) results),
     set_next_id (next_id w + length results)%nat w).
Proof.
  revert batch w. induction results as [|result rest IH]; intros batch w.
  - unfold writes_for. simpl. unfold ret, set_next_id. rewrite app_nil_r, Nat.add_0_r.
    by destruct w.
  - cbn [batch_set_all]. unfold bind at 1. unfold new_doc_id at 1. unfold bind at 1.
    unfold Date_now at 1. rewrite IH. unfold set_next_id, writes_for.
    cbn [clock next_id users books notifs outbox trace length seq fmap list_fmap zip zip_with].
    rewrite <- app_assoc. cbn [app fst snd].
    replace (next_id w + S (length rest))%nat with (S (next_id w) + length rest)%nat by lia.
    reflexivity.
Qed.

Lemma saveNotifications_writes env userId bookTitle results w :
  saveNotifications env userId bookTitle results w
  = (Ok tt,
     mkWorld (clock w + Z.max 0 (latency env (EvBatchCommit (length results))))
       (users w) (books w)
       (foldl (apply_write (clock w + Z.max 0 (latency env (EvBatchCommit (length results)))))
          (notifs w)
          (writes_for env userId bookTitle (clock w) (next_id w) results))
       (outbox w)
       (trace w ++ [EvBatchCommit (length results); EvLog "Saved notifications"])
       (next_id w + length results)%nat).
Proof.
  unfold saveNotifications, try_catch, bind. rewrite batch_set_all_writes.
  rewrite batch_commit_run. unfold console, set_trace, set_next_id.
  cbn [clock next_id users books notifs outbox trace app].
  assert (Hlen : length (writes_for env userId bookTitle (clock w) (next_id w) results)
                 = length results).
  { unfold writes_for. rewrite length_fmap, length_zip, length_fmap, length_seq. lia. }
  by rewrite Hlen, <- app_assoc.
Qed.

Lemma foldl_set_other t (writes : list (string * (Z → Notification)))
    (m : gmap string Notification) k :
  k ∉ writes.*1 →
  foldl (apply_write t) m ((λ p, WSet p.1 p.2) <$> writes) !! k = m !! k.
Proof.
  revert m. induction writes as [|[id data] writes IH]; intros m Hk; [done|].
  rewrite fmap_cons, not_elem_of_cons in Hk. destruct Hk as [Hne Hk].
  cbn [fmap list_fmap foldl apply_write fst snd]. rewrite IH by done.
  by apply lookup_insert_ne.
Qed.

Lemma foldl_set_lookup t (writes : list (string * (Z → Notification)))
    (m : gmap string Notification) k data :
  NoDup writes.*1 → (k, data) ∈ writes →
  foldl (apply_write t) m ((λ p, WSet p.1 p.2) <$> writes) !! k = Some (data t).
Proof.
  revert m. induction writes as [|[id data'] writes IH]; intros m Hnd Hin.
  - by apply elem_of_nil in Hin.
  - rewrite fmap_cons in Hnd. apply NoDup_cons in Hnd as [Hid Hnd].
    cbn [fmap list_fmap foldl apply_write fst snd].
    apply elem_of_cons in Hin as [[= -> ->]|Hin]; [|by apply IH].
    rewrite foldl_set_other by done. apply lookup_insert_eq.
Qed.

Lemma writes_for_pairs env userId bookTitle now n results :
  writes_for env userId bookTitle now n results
  = (λ p, WSet p.1 p.2)
    <$> ((λ p, (p.1, notification_for env userId bookTitle now p.2))
         <$> zip (auto_id env <$> seq n (length results)) results).
Proof. unfold writes_for. by rewrite <- list_fmap_compose. Qed.

Lemma writes_for_ids env userId bookTitle now n results :
  ((λ p : string * SearchResult, (p.1, notification_for env userId bookTitle now p.2))
   <$> zip (auto_id env <$> seq n (length results)) results).*1
  = auto_id env <$> seq n (length results).
Proof.
  rewrite <- list_fmap_compose.
  rewrite <- (fst_zip (auto_id env <$> seq n (length results)) results) at 2
    by (rewrite length_fmap, length_seq; lia).
  by apply list_fmap_ext.
Qed.

Lemma writes_lookup env userId bookTitle now n results t (m : gmap string Notification) :
  NoDup (auto_id env <$> seq n (length results)) →
  (∀ i r, results !! i = Some r →
     foldl (apply_write t) m (writes_for env userId bookTitle now n results)
       !! auto_id env (n + i)
     = Some (notification_for env userId bookTitle now r t))
  ∧ (∀ k, k ∉ auto_id env <$> seq n (length results) →
       foldl (apply_write t) m (writes_for env userId bookTitle now n results) !! k = m !! k).
Proof.
  intros Hnd. rewrite writes_for_pairs. split.
  - intros i r Hr.
    apply foldl_set_lookup; [by rewrite writes_for_ids|].
    apply list_elem_of_fmap. exists (auto_id env (n + i), r). split; [done|].
    apply list_elem_of_lookup. exists i. apply lookup_zip_Some. split; [|done].
    rewrite list_lookup_fmap, lookup_seq_lt; [done|]. by eapply lookup_lt_Some.
  - intros k Hk. apply foldl_set_other. by rewrite writes_for_ids.
Qed.

(** X9. [saveNotifications] writes one document per result under the next
    ids of the supply. Read back, the document of a result carries its
    title, price, source and link, the user and the book title,
    [read = false], no [readAt], the commit time as [createdAt], and
    [null] for a condition or seller that is missing or empty. No other
    notification, no book and no mail changes. *)
Theorem saveNotifications_round_trip env userId bookTitle results w :
  NoDup (new_ids env w (length results)) →
  ∃ w',
    saveNotifications env userId bookTitle results w = (Ok tt, w')
    ∧ (∀ i r, results !! i = Some r →
         notifs w' !! auto_id env (next_id w + i)
         = Some (notification_for env userId bookTitle (clock w) r (clock w'))
         ∧ n_read (notification_for env userId bookTitle (clock w) r (clock w')) = false
         ∧ n_condition (notification_for env userId bookTitle (clock w) r (clock w'))
           = (if JS.truthy (condition r) then condition r else None)
         ∧ n_seller (notification_for env userId bookTitle (clock w) r (clock w'))
           = (if JS.truthy (seller r) then seller r else None))
    ∧ (∀ k, k ∉ new_ids env w (length results) → notifs w' !! k = notifs w !! k)
    ∧ books w' = books w ∧ outbox w' = outbox w ∧ users w' = users w
    ∧ next_id w' = (next_id w + length results)%nat.
Proof.
  intros Hnd. rewrite saveNotifications_writes. eexists. split; [reflexivity|].
  cbn [notifs clock books outbox users next_id].
  destruct (writes_lookup env userId bookTitle (clock w) (next_id w) results
              (clock w + Z.max 0 (latency env (EvBatchCommit (length results))))
              (notifs w) Hnd) as [Hin Hout].
  split; [|split; [exact Hout|done]].
  intros i r Hr. split; [by apply Hin|done].
Qed.

(** ** More on the loop body *)

Lemma processBook_found_run env userId userData bookId book w results w1 :
  searchedRecently env book (clock w) = false →
  searchAllPlatforms env (book_title book) (book_author book) w = (Ok results, w1) →
  results = []
  ∨ smtp_accepts env (clock w1)
      (mkMail (email userData) (displayName userData) (book_title book) results) = true →
  processBook env userId userData (bookId, book) w
  = try_catch
      (let* now := Date_now in
       update_book env bookId (toISOString env now) ;;; sleep 2000)
      (λ error, console (EvError "Error searching for book"))
      (update_world env userId userData book results w1).
Proof.
  intros Hold Hrun Hok. rewrite processBook_search by done.
  unfold try_catch at 1 2, searchAndNotify. unfold bind at 1 3. rewrite Hrun.
  destruct results as [|r results']; [done|].
  destruct Hok as [|Hmail]; [done|].
  set (results := r :: results') in *.
  change (0 <? length results)%nat with true. cbv iota.
  unfold bind at 1. unfold bind at 1.
  rewrite (sendEmailToUser_accepted _ _ _ _ _ _ Hmail).
  unfold bind at 1. rewrite saveNotifications_writes.
  unfold console at 1. unfold update_world, notified_world, set_trace.
  cbn [clock users books notifs outbox trace next_id].
  by rewrite <- !app_assoc.
Qed.

(** X10. When the search finds results and the mail is accepted, the book
    gives rise to exactly one mail, to the user's address and with all the
    results, and to one unread notification per result, for this user and
    this book; no other notification and no other book changes. *)
Theorem found_results_notify_once env userId userData bookId book w results w1 :
  books w !! bookId = Some book →
  searchedRecently env book (clock w) = false →
  searchAllPlatforms env (book_title book) (book_author book) w = (Ok results, w1) →
  results ≠ [] →
  smtp_accepts env (clock w1)
    (mkMail (email userData) (displayName userData) (book_title book) results) = true →
  NoDup (new_ids env w (length results)) →
  ∃ w',
    processBook env userId userData (bookId, book) w = (Ok tt, w')
    ∧ outbox w'
      = outbox w ++ [mkMail (email userData) (displayName userData) (book_title book) results]
    ∧ (∀ i r, results !! i = Some r →
         ∃ n, notifs w' !! auto_id env (next_id w + i) = Some n
              ∧ n_userId n = userId ∧ n_bookTitle n = book_title book
              ∧ n_title n = title r ∧ n_price n = price r ∧ n_source n = source r
              ∧ n_link n = link r ∧ n_read n = false)
    ∧ (∀ k, k ∉ new_ids env w (length results) → notifs w' !! k = notifs w !! k)
    ∧ (∀ id', id' ≠ bookId → books w' !! id' = books w !! id').
Proof.
  intros Hb Hold Hrun Hne Hmail Hnd.
  destruct (searchAllPlatforms_same_store _ _ _ _ _ _ Hrun)
    as (_ & Hbooks & Hnotifs & Hout & Hnext).
  rewrite (processBook_found_run _ _ _ _ _ _ _ _ Hold Hrun (or_intror Hmail)).
  destruct results as [|r0 results']; [done|]. set (results := r0 :: results') in *.
  change (update_world env userId userData book results w1)
    with (notified_world env userId userData book results w1).
  unfold try_catch.
  assert (Hb' : books (notified_world env userId userData book results w1) !! bookId
               = Some book)
    by (unfold notified_world; cbv zeta; cbn [books]; by rewrite Hbooks).
  rewrite (update_and_pause env bookId book _ Hb').
  eexists. split; [reflexivity|]. unfold notified_world. cbv zeta.
  cbn [outbox notifs books clock]. rewrite Hout, Hnotifs, Hnext, Hbooks.
  unfold new_ids in *.
  match goal with
  | |- context [foldl (apply_write ?t) (notifs w) (writes_for env userId ?bt ?now _ results)] =>
      destruct (writes_lookup env userId bt now (next_id w) results t (notifs w) Hnd)
        as [Hin Hother]
  end.
  split; [done|]. split; [|split; [exact Hother|]].
  - intros i r Hr. eexists. split; [by apply Hin|]. by repeat split.
  - intros id' Hid'. by apply lookup_insert_ne.
Qed.

(** X11. A book that was just processed, with [lastSearched] updated, is
    skipped when it is processed again right away, provided the date that
    was written reads back as the instant it was made from and the update
    took less than six hours. *)
Theorem processed_book_is_skipped_next env userId userData bookId book w results w1 :
  books w !! bookId = Some book →
  searchedRecently env book (clock w) = false →
  searchAllPlatforms env (book_title book) (book_author book) w = (Ok results, w1) →
  results = []
  ∨ smtp_accepts env (clock w1)
      (mkMail (email userData) (displayName userData) (book_title book) results) = true →
  let t := clock (update_world env userId userData book results w1) in
  toISOString env t ≠ "" →
  Date_parse env (toISOString env t) = Some t →
  Z.max 0 (latency env (EvUpdateBook bookId (toISOString env t))) < 6 * 60 * 60 * 1000 - 2000 →
  ∃ w' book',
    processBook env userId userData (bookId, book) w = (Ok tt, w')
    ∧ books w' !! bookId = Some book'
    ∧ lastSearched book' = Some (toISOString env t)
    ∧ processBook env userId userData (bookId, book') w'
      = (Ok tt, set_trace (trace w' ++ [EvLog "Skipping - searched recently"]) w').
Proof.
  intros Hb Hold Hrun Hok t Hiso Hparse Hlat.
  destruct (searchAllPlatforms_same_store _ _ _ _ _ _ Hrun) as (_ & Hbooks & _).
  rewrite (processBook_found_run _ _ _ _ _ _ _ _ Hold Hrun Hok).
  assert (Hb' : books (update_world env userId userData book results w1) !! bookId = Some book).
  { unfold update_world, notified_world. destruct results; cbv zeta; cbn [books];
      by rewrite Hbooks. }
  unfold try_catch. rewrite (update_and_pause env bookId book _ Hb'). fold t.
  eexists _, (with_lastSearched book (toISOString env t)).
  split; [reflexivity|]. cbn [books]. split; [apply lookup_insert_eq|]. split; [done|].
  apply processBook_skip. apply searchedRecently_true.
  exists (toISOString env t), t. cbn [clock lastSearched with_lastSearched].
  repeat split; [done..|]. lia.
Qed.

(** ** More on the daily job *)

Lemma for_books_total env userId userData bookDocs w :
  ∃ w', for_books env userId userData bookDocs w = (Ok tt, w').
Proof.
  revert w. induction bookDocs as [|doc rest IH]; intros w; [by eexists|].
  cbn [for_books]. unfold bind.
  destruct (processBook_total env userId userData doc w) as [w1 ->]. apply IH.
Qed.

Lemma for_books_keeps env userId userData bookDocs id w :
  id ∉ bookDocs.*1 →
  books (for_books env userId userData bookDocs w).2 !! id = books w !! id.
Proof.
  revert w. induction bookDocs as [|[id' b] rest IH]; intros w Hid; [done|].
  rewrite fmap_cons, not_elem_of_cons in Hid. destruct Hid as [Hne Hid].
  cbn [for_books]. unfold bind.
  pose proof (other_books_kept_processBook env userId userData id' b w id Hne) as Hkept.
  destruct (processBook_total env userId userData (id', b) w) as [w1 Hw1].
  rewrite Hw1 in *. cbn [snd] in Hkept. by rewrite IH.
Qed.

Lemma for_users_keeps env userDocs id b w :
  books w !! id = Some b →
  (∀ userDoc, userDoc ∈ userDocs → userDoc.1 ≠ book_userId b) →
  ∃ w', for_users env userDocs w = (Ok tt, w') ∧ books w' !! id = Some b.
Proof.
  revert w. induction userDocs as [|[uid u] rest IH]; intros w Hb Hothers; [by eexists|].
  cbn [for_users]. unfold bind at 1. unfold get_books_of, bind at 1, emit. cbn [fst snd].
  set (w0 := set_clock _ _).
  set (docs := filter _ _).
  unfold bind at 1. unfold console at 1. unfold bind at 1.
  set (w1 := set_trace _ w0).
  assert (Hid : id ∉ docs.*1).
  { intros ([id' b'] & Heq & [Hu Hin]%list_elem_of_filter)%list_elem_of_fmap.
    apply elem_of_map_to_list in Hin. cbn in Hin, Hu, Heq. subst id'.
    rewrite Hb in Hin. injection Hin as <-.
    apply (Hothers (uid, u)); [left|done]. }
  pose proof (for_books_keeps env uid u docs id w1 Hid) as Hkept.
  destruct (for_books_total env uid u docs w1) as [w2 Hw2]. rewrite Hw2 in *.
  cbn [snd] in Hkept. unfold bind at 1. unfold sleep at 1.
  apply IH.
  - cbn [books set_clock set_trace]. by rewrite Hkept.
  - intros d Hd. apply Hothers. by right.
Qed.

(** X12. The daily job returns normally, and a book whose owner is not a
    user with notifications enabled is left exactly as it was. *)
Theorem dailyBookSearch_spares_other_users env w id b :
  books w !! id = Some b →
  ¬ notifying w (book_userId b) →
  ∃ w', dailyBookSearch env w = (Ok tt, w') ∧ books w' !! id = Some b.
Proof.
  intros Hb Hquiet.
  unfold dailyBookSearch. unfold bind at 1. unfold console at 1.
  unfold bind at 1. unfold try_catch. unfold bind at 1.
  unfold get_users_notifying, bind at 1, emit. cbn [fst snd].
  set (w0 := set_clock _ _).
  set (userDocs := filter _ _).
  unfold bind at 1. unfold console at 1.
  set (w1 := set_trace _ w0).
  destruct (for_users_keeps env userDocs id b w1) as (w2 & Hrun & Hb2); [done| |].
  { intros [uid u] [Hn Hin]%list_elem_of_filter Heq.
    apply elem_of_map_to_list in Hin. cbn in Hin, Hn, Heq. subst uid.
    apply Hquiet. by exists u. }
  rewrite Hrun. unfold console. eexists. split; [reflexivity|]. done.
Qed.

(** X13. With no user having notifications enabled, the daily job makes
    its query for users and nothing else: no search, no mail, no write. *)
Theorem dailyBookSearch_without_subscribers env w :
  (∀ uid, ¬ notifying w uid) →
  dailyBookSearch env w
  = (Ok tt,
     mkWorld (clock w + Z.max 0 (latency env (EvQuery "users")))
       (users w) (books w) (notifs w) (outbox w)
       (trace w ++ [EvLog "Starting daily book search..."; EvQuery "users";
                    EvLog "Found users with notifications enabled";
                    EvLog "Daily book search completed"])
       (next_id w)).
Proof.
  intros Hnone.
  assert (Hempty : filter (λ d : string * User, notifications d.2 = Some true)
                     (map_to_list (users w)) = []).
  { apply filter_none. intros [uid u] Hin%elem_of_map_to_list Hn.
    apply (Hnone uid). by exists u. }
  unfold dailyBookSearch, bind, console, try_catch, get_users_notifying, bind, emit.
  cbn [fst snd users set_clock set_trace clock books notifs outbox trace next_id].
  rewrite Hempty. cbn [for_users]. unfold ret, set_trace.
  cbn [clock users books notifs outbox trace next_id].
  by rewrite <- !app_assoc.
Qed.

(** ** More on the callable operations and the sweep *)


(** X15. When at most 500 notifications are older than the cutoff, one
    sweep deletes all of them and keeps every other notification as it
    is. *)
Theorem sweep_clears_when_under_cap env w :
  (size (expired (thirtyDaysBefore env (clock w)) (notifs w)) ≤ 500)%nat →
  ∃ w',
    cleanupOldNotifications env w = (Ok tt, w')
    ∧ expired (thirtyDaysBefore env (clock w)) (notifs w') = ∅
    ∧ ∀ id, notifs w' !! id
            = match notifs w !! id with
              | Some n =>
                  if decide (n_createdAt n < thirtyDaysBefore env (clock w)) then None
                  else Some n
              | None => None
              end.
Proof.
  intros Hcap. set (cutoff := thirtyDaysBefore env (clock w)) in *.
  pose proof (cleanupOldNotifications_run env w) as Hrun. cbv zeta in Hrun.
  fold cutoff in Hrun.
  destruct (notifications_before_spec cutoff 500 (notifs w)) as (Hnd & Hin & Hlen).
  remember (notifications_before cutoff 500 (notifs w)) as docs eqn:Hdocs.
  assert (Hkeys : ∀ k, k ∈ docs.*1 ↔ is_Some (expired cutoff (notifs w) !! k)).
  { intros k. split.
    - intros ([k' x] & -> & Hd)%list_elem_of_fmap. rewrite (Hin _ Hd). by eexists.
    - intros [x Hx]. apply elem_of_map_to_list in Hx.
      assert (Hperm : docs.*1 ≡ₚ (map_to_list (expired cutoff (notifs w))).*1).
      { apply submseteq_length_Permutation.
        - apply NoDup_submseteq; [done|].
          intros k' ([k'' x'] & -> & Hd)%list_elem_of_fmap.
          apply list_elem_of_fmap. exists (k'', x'). split; [done|].
          apply elem_of_map_to_list. exact (Hin _ Hd).
        - rewrite !length_fmap, Hlen, length_map_to_list. lia. }
      rewrite Hperm. apply list_elem_of_fmap. by exists (k, x). }
  assert (Hlookup : ∀ id,
    foldl (λ m k, delete k m) (notifs w) docs.*1 !! id
    = match notifs w !! id with
      | Some n => if decide (n_createdAt n < cutoff) then None else Some n
      | None => None
      end).
  { intros id. rewrite lookup_foldl_delete.
    destruct (decide (id ∈ docs.*1)) as [Hid|Hid].
    - apply Hkeys in Hid as [x Hx]. apply map_lookup_filter_Some in Hx as [-> HP].
      by rewrite decide_True.
    - destruct (notifs w !! id) as [n|] eqn:Hn; [|done].
      destruct (decide (n_createdAt n < cutoff)) as [HP|HP]; [|done].
      exfalso. apply Hid, Hkeys. exists n. by apply map_lookup_filter_Some. }
  assert (Hresult : ∃ w',
    cleanupOldNotifications env w = (Ok tt, w')
    ∧ notifs w' = foldl (λ m k, delete k m) (notifs w) docs.*1).
  { eexists. split; [exact Hrun|]. clear. by destruct docs. }
  destruct Hresult as (w' & Hw' & Hnotifs). exists w'. split; [done|].
  rewrite Hnotifs. split; [|exact Hlookup].
  apply map_eq. intros id. rewrite lookup_empty.
  apply map_lookup_filter_None. right. intros n Hn HP. rewrite Hlookup in Hn.
  destruct (notifs w !! id) as [n0|]; [|done].
  destruct (decide (n_createdAt n0 < cutoff)); [done|]. injection Hn as ->. done.
Qed.

(** ** The client's book service *)

#[global] Instance addedDate_desc_trans : Transitive addedDate_desc.
Proof. intros a b c Hab Hbc. unfold addedDate_desc in *. by etrans. Qed.

#[global] Instance addedDate_desc_total : Total addedDate_desc.
Proof.
  intros a b. unfold addedDate_desc.
  destruct (total String.le (bd_addedDate a.2) (bd_addedDate b.2)); auto.
Qed.

Lemma getUserBooks_elem cenv userId c l id d :
  getUserBooks cenv userId c = (Done l, c) →
  (id, d) ∈ l ↔ c_books c !! id = Some d ∧ bd_userId d = userId.
Proof.
  unfold getUserBooks. destruct (firestore_rejects cenv (c_clock c)); [done|].
  intros [= <-]. rewrite merge_sort_Permutation, list_elem_of_filter, elem_of_map_to_list.
  simpl. tauto.
Qed.

Lemma getUserBooks_accepted cenv userId c :
  firestore_rejects cenv (c_clock c) = false →
  ∃ l, getUserBooks cenv userId c = (Done l, c).
Proof. intros Hfs. unfold getUserBooks. rewrite Hfs. by eexists. Qed.

(** X16. [getUserBooks] returns the book documents of that user and no
    other, each once, the most recently added first; when Firestore
    rejects the query it fails with 'Failed to fetch books'. *)
Theorem getUserBooks_own_books_latest_first cenv userId c :
  (firestore_rejects cenv (c_clock c) = true →
   getUserBooks cenv userId c = (Failed "Failed to fetch books", c))
  ∧ (firestore_rejects cenv (c_clock c) = false →
     ∃ l,
       getUserBooks cenv userId c = (Done l, c)
       ∧ (∀ id d, (id, d) ∈ l ↔ c_books c !! id = Some d ∧ bd_userId d = userId)
       ∧ NoDup l.*1
       ∧ StronglySorted addedDate_desc l).
Proof.
  split; intros Hfs.
  - unfold getUserBooks. by rewrite Hfs.
  - assert (Hrun : ∃ l, getUserBooks cenv userId c = (Done l, c)
                        ∧ l = merge_sort addedDate_desc
                                (filter (λ d, bd_userId d.2 = userId) (map_to_list (c_books c)))).
    { unfold getUserBooks. rewrite Hfs. by eexists. }
    destruct Hrun as (l & Hrun & Hl). exists l. split; [done|].
    split; [intros id d; by apply (getUserBooks_elem cenv userId c)|].
    rewrite Hl. split; [|apply StronglySorted_merge_sort; apply _].
    rewrite merge_sort_Permutation.
    eapply sublist_NoDup; [apply (NoDup_fst_map_to_list (c_books c))|].
    apply fmap_sublist, sublist_filter.
Qed.

(** X17. [addBook] stores the book under a new id with the caller's user
    id and today's date, whatever [addedDate] the caller passed, returns
    it, and leaves every other document alone; [getUserBooks] for that
    user then lists it. When Firestore rejects the write it fails with
    'Failed to add book' and nothing is stored. *)
Theorem addBook_then_listed cenv userId book c :
  (firestore_rejects cenv (c_clock c) = true →
   addBook cenv userId book c = (Failed "Failed to add book", c))
  ∧ (firestore_rejects cenv (c_clock c) = false →
     let id := client_auto_id cenv (c_next_id c) in
     let data := mkBookData (in_title book) (in_author book) (today cenv c) userId in
     ∃ c' l,
       addBook cenv userId book c = (Done (id, data), c')
       ∧ c_books c' !! id = Some data
       ∧ (∀ k, k ≠ id → c_books c' !! k = c_books c !! k)
       ∧ getUserBooks cenv userId c' = (Done l, c')
       ∧ (id, data) ∈ l).
Proof.
  split; intros Hfs.
  - unfold addBook. by rewrite Hfs.
  - intros id data.
    set (c' := mkClient (c_clock c) (<[id := data]> (c_books c)) (S (c_next_id c))).
    destruct (getUserBooks_accepted cenv userId c') as [l Hl]; [done|].
    exists c', l. unfold addBook. rewrite Hfs.
    split; [done|]. split; [apply lookup_insert_eq|].
    split; [intros k Hk; by apply lookup_insert_ne|]. split; [done|].
    apply (getUserBooks_elem cenv userId c' l id data Hl). split; [apply lookup_insert_eq|done].
Qed.

Lemma plain_id_segments id :
  id ≠ "" → ¬ contains id "/" →
  JS.includes id "//" = false ∧ path_segments id = [id].
Proof.
  intros Hne Hplain. split.
  - apply not_true_iff_false. intros (pre & post & ->)%includes_spec.
    apply Hplain. by exists pre, ("/" +:+ post).
  - unfold path_segments. rewrite (split_no_sep "/"%char id Hplain). simpl.
    by destruct id.
Qed.

(** X18. [removeBook] reads its argument as a path below 'books'. When
    the path has one segment, which is so for a document id (a text
    without '/', not empty) and also for 'k1/' and '/k1', it deletes the
    document of that id whoever owns it, and succeeds as well when there
    is none; no other document changes and no user's list shows the id
    afterwards. It fails with 'Failed to remove book' when the argument
    holds '//', when its segments are an even number (none, as for the
    empty text, or two, as for 'k1/x'), and when Firestore rejects the
    delete; then nothing changes. A path of three or more segments, odd in
    number, names a document further down: no document of 'books'
    changes. *)
Theorem removeBook_any_owner cenv bookId c :
  (JS.includes bookId "//" = true ∨ Nat.even (length (path_segments bookId)) = true
   ∨ firestore_rejects cenv (c_clock c) = true →
   removeBook cenv bookId c = (Failed "Failed to remove book", c))
  ∧ (∀ id,
       JS.includes bookId "//" = false → path_segments bookId = [id] →
       firestore_rejects cenv (c_clock c) = false →
       ∃ c',
         removeBook cenv bookId c = (Done tt, c')
         ∧ c_books c' !! id = None
         ∧ (∀ k, k ≠ id → c_books c' !! k = c_books c !! k)
         ∧ ∀ userId l, getUserBooks cenv userId c' = (Done l, c') → id ∉ l.*1)
  ∧ (JS.includes bookId "//" = false →
     Nat.even (length (path_segments bookId)) = false →
     (1 < length (path_segments bookId))%nat →
     firestore_rejects cenv (c_clock c) = false →
     removeBook cenv bookId c = (Done tt, c))
  ∧ (bookId ≠ "" → ¬ contains bookId "/" →
     JS.includes bookId "//" = false ∧ path_segments bookId = [bookId])
  ∧ path_segments "k1/" = ["k1"] ∧ path_segments "/k1" = ["k1"]
  ∧ path_segments "k1/x" = ["k1"; "x"] ∧ path_segments "" = [].
Proof.
  split; [|split; [|split; [|split; [apply plain_id_segments|done]]]].
  - unfold removeBook, doc_books. intros [->|[Heven|Hfs]]; [done| |].
    + destruct (JS.includes bookId "//"); [done|].
      destruct (path_segments bookId) as [|s1 [|s2 rest]]; [done|done|].
      cbn [length] in *. rewrite Nat.even_succ, <- Nat.negb_even, Heven. done.
    + destruct (JS.includes bookId "//"); [done|].
      destruct (path_segments bookId) as [|s1 [|s2 rest]]; [done|by rewrite Hfs|].
      destruct (Nat.even _); [by rewrite Hfs|done].
  - intros id Hslash Hsegments Hfs. unfold removeBook, doc_books.
    rewrite Hslash, Hsegments, Hfs.
    eexists. split; [reflexivity|]. cbn [c_books].
    split; [apply lookup_delete_eq|].
    split; [intros k Hk; by apply lookup_delete_ne|].
    intros userId l Hl ([id' d] & Heq & Hin)%list_elem_of_fmap. cbn in Heq. subst id'.
    apply (getUserBooks_elem _ _ _ _ _ _ Hl) in Hin as [Hin _]. cbn [c_books] in Hin.
    by rewrite lookup_delete_eq in Hin.
  - intros Hslash Hodd Hlen Hfs. unfold removeBook, doc_books. rewrite Hslash.
    destruct (path_segments bookId) as [|s1 [|s2 rest]]; [done|simpl in Hlen; lia|].
    cbn [length] in *. rewrite Nat.even_succ, <- Nat.negb_even, Hodd. simpl.
    by rewrite Hfs.
Qed.

(** ** The theorems at sample inputs *)

Lemma searchAllPlatforms_dedup_witness :
  ∃ out,
    searchAllPlatforms both_env "Dune" None (sample_world None)
    = (Ok out, (searchAllPlatforms both_env "Dune" None (sample_world None)).2)
    ∧ NoDup (link <$> out)
    ∧ out `sublist_of`
        [craigslistResult dune_row_1; craigslistResult dune_row_2] ++
        [mkSearchResult "Dune for sale $10.50" "$10.50" "Reddit r/books" None
           "https://reddit.com/r/books/1" (Some "/u/bob")].
Proof.
  destruct (searchAllPlatforms_dedup both_env "Dune" None (sample_world None)
              [craigslistResult dune_row_1; craigslistResult dune_row_2]
              [mkSearchResult "Dune for sale $10.50" "$10.50" "Reddit r/books" None
                 "https://reddit.com/r/books/1" (Some "/u/bob")]
              (searchCraigslist both_env "Dune"
                 (set_trace (trace (sample_world None) ++ [EvAggregator "Dune" None])
                    (sample_world None))).2
              (searchAllPlatforms both_env "Dune" None (sample_world None)).2)
    as (out & Hrun & Hnd & _ & _ & Hsub & _); [by vm_compute..|].
  exists out. by repeat split.
Defined.

Lemma throttle_six_hours_witness :
  processBook quiet_env "u1" sample_user
    ("b1", sample_book (Some "2024-05-01T04:00:00.000Z"))
    (sample_world (Some "2024-05-01T04:00:00.000Z"))
  = (Ok tt,
     set_trace [EvLog "Skipping - searched recently"]
       (sample_world (Some "2024-05-01T04:00:00.000Z")))
  ∧ ∃ results w1 rest,
      searchAllPlatforms found_env "Dune" None (sample_world (Some "2024-05-01T03:00:00.000Z"))
      = (Ok results, w1)
      ∧ trace (processBook found_env "u1" sample_user
                 ("b1", sample_book (Some "2024-05-01T03:00:00.000Z"))
                 (sample_world (Some "2024-05-01T03:00:00.000Z"))).2
        = EvAggregator "Dune" None :: EvHttpCraigslist "Dune" :: rest.
Proof.
  split.
  - apply (throttle_six_hours quiet_env "u1" sample_user "b1"
             (sample_book (Some "2024-05-01T04:00:00.000Z"))
             (sample_world (Some "2024-05-01T04:00:00.000Z"))).
    exists "2024-05-01T04:00:00.000Z", 1714536000000. by vm_compute.
  - destruct (throttle_six_hours found_env "u1" sample_user "b1"
                (sample_book (Some "2024-05-01T03:00:00.000Z"))
                (sample_world (Some "2024-05-01T03:00:00.000Z"))) as [_ Hsearched].
    destruct Hsearched as (results & w1 & requests & rest & Hrun & Hfirst & Htrace).
    { right. exists "2024-05-01T03:00:00.000Z", 1714532400000. by vm_compute. }
    exists results, w1, (requests ++ rest). split; [exact Hrun|].
    rewrite Htrace, Hfirst. reflexivity.
Defined.

Lemma zero_results_suppressed_witness :
  ∃ w' book',
    processBook quiet_env "u1" sample_user ("b1", sample_book None) (sample_world None)
    = (Ok tt, w')
    ∧ outbox w' = [] ∧ notifs w' = ∅
    ∧ books w' !! "b1" = Some book'
    ∧ lastSearched book' = Some "2024-05-01T09:00:01.500Z"
    ∧ book_title book' = "Dune".
Proof.
  destruct (zero_results_suppressed quiet_env "u1" sample_user "b1" (sample_book None)
              (sample_world None)
              (searchAllPlatforms quiet_env "Dune" None (sample_world None)).2)
    as (w' & book' & Hrun & Hout & Hnotifs & Hbooks & Hlast & Htitle & _);
    [by vm_compute..|].
  exists w', book'. split; [exact Hrun|]. split; [exact Hout|]. split; [exact Hnotifs|].
  split; [rewrite Hbooks; apply lookup_insert_eq|].
  split; [rewrite Hlast; by vm_compute|exact Htitle].
Defined.

Lemma lastSearched_after_processing_witness :
  (∃ w' book',
     processBook found_env "u1" sample_user ("b1", sample_book None) (sample_world None)
     = (Ok tt, w')
     ∧ books w' !! "b1" = Some book'
     ∧ lastSearched book' = Some "2024-05-01T09:00:00.000Z")
  ∧ (∃ w',
       processBook rejecting_env "u1" sample_user ("b1", sample_book None) (sample_world None)
       = (Ok tt, w')
       ∧ books w' !! "b1" = Some (sample_book None)
       ∧ lastSearched (sample_book None) = None).
Proof.
  split.
  - destruct (lastSearched_after_processing found_env "u1" sample_user "b1"
                (sample_book None) (sample_world None)
                [craigslistResult dune_row_1]
                (searchAllPlatforms found_env "Dune" None (sample_world None)).2)
      as (w' & Hrun & Hif); [by vm_compute..|].
    lazymatch type of Hif with
    | if ?c then _ else _ => assert (Hc : c = true) by (by vm_compute); rewrite Hc in Hif
    end.
    cbv zeta in Hif. destruct Hif as [(book' & Hbooks & Hlast & _) _].
    exists w', book'. split; [exact Hrun|].
    split; [rewrite Hbooks; apply lookup_insert_eq|].
    rewrite Hlast. by vm_compute.
  - destruct (lastSearched_after_processing rejecting_env "u1" sample_user "b1"
                (sample_book None) (sample_world None)
                [craigslistResult dune_row_1]
                (searchAllPlatforms rejecting_env "Dune" None (sample_world None)).2)
      as (w' & Hrun & Hif); [by vm_compute..|].
    exists w'. split; [exact Hrun|].
    lazymatch type of Hif with
    | if ?c then _ else _ => assert (Hc : c = false) by (by vm_compute); rewrite Hc in Hif
    end.
    destruct Hif as (_ & Hbook & _). by split.
Defined.

Lemma connector_fault_isolation_witness :
  searchAllPlatforms reddit_only_env "Dune" None (sample_world None)
  = (Ok [mkSearchResult "Dune for sale $10.50" "$10.50" "Reddit r/books" None
           "https://reddit.com/r/books/1" (Some "/u/bob")],
     (searchAllPlatforms reddit_only_env "Dune" None (sample_world None)).2).
Proof.
  apply (connector_fault_isolation reddit_only_env "Dune" None (sample_world None))
    with (e := NetworkError)
         (w1 := (searchCraigslist_try reddit_only_env "Dune"
                   (set_trace (trace (sample_world None) ++ [EvAggregator "Dune" None])
                      (sample_world None))).2);
    by vm_compute.
Defined.

Lemma retention_sweep_cap_witness :
  ∃ w',
    cleanupOldNotifications quiet_env (sweep_world 600) = (Ok tt, w')
    ∧ (size (notifs w') + 500 = size (notifs (sweep_world 600)))%nat
    ∧ size (expired 1711962000000 (notifs w')) = 100%nat.
Proof.
  destruct (retention_sweep_cap quiet_env (sweep_world 600))
    as (w' & Hrun & _ & _ & _ & _ & _ & H600 & _).
  exists w'. split; [exact Hrun|]. apply H600. by vm_compute.
Defined.

Lemma searchBook_validates_and_reads_only_witness :
  searchBook both_env (Some (mkSearchBookData (Some "Dune") None)) (mkContext None)
    (sample_world None)
  = (Throw (HttpsError "unauthenticated" "User must be authenticated"), sample_world None)
  ∧ searchBook both_env (Some (mkSearchBookData (Some "") None)) (mkContext (Some "u1"))
      (sample_world None)
    = (Throw (HttpsError "invalid-argument" "Book title is required"), sample_world None)
  ∧ searchBook both_env None (mkContext (Some "u1")) (sample_world None)
    = (Throw TypeError, sample_world None).
Proof.
  split; [|split].
  - by apply (searchBook_validates_and_reads_only both_env
                (Some (mkSearchBookData (Some "Dune") None)) (mkContext None)
                (sample_world None)).
  - destruct (searchBook_validates_and_reads_only both_env
                (Some (mkSearchBookData (Some "") None)) (mkContext (Some "u1"))
                (sample_world None)) as (_ & _ & Hinvalid & _).
    apply (Hinvalid (mkSearchBookData (Some "") None)); [done|done|by right].
  - by apply (searchBook_validates_and_reads_only both_env None (mkContext (Some "u1"))
                (sample_world None)).
Defined.

Lemma markNotificationRead_ignores_owner_witness :
  ∃ w' t,
    markNotificationRead quiet_env (Some "fresh") (mkContext (Some "someone-else"))
      (sweep_world 0)
    = (Ok (mkMarkReadResponse true), w')
    ∧ notifs w' = <["fresh" := mark_read (sample_notification 1714550400000) t]>
                    (notifs (sweep_world 0))
    ∧ t = 1714554000000.
Proof.
  destruct (markNotificationRead_ignores_owner quiet_env "fresh"
              (sample_notification 1714550400000) "someone-else" (sweep_world 0))
    as [(w' & t & Hrun & Hnotifs & _ & _ & _ & Ht) _]; [done|by vm_compute|].
  exists w', t. repeat split; [done..|].
  rewrite Ht.
  replace w' with
    (markNotificationRead quiet_env (Some "fresh") (mkContext (Some "someone-else"))
       (sweep_world 0)).2 by (by rewrite Hrun).
  by vm_compute.
Defined.

Lemma searchReddit_all_or_nothing_witness :
  ∃ w',
    searchReddit found_env "Dune" (sample_world None) = (Ok [], w')
    ∧ last (trace w') = Some (EvError "Reddit search error:")
    ∧ same_store (sample_world None) w'.
Proof.
  apply (searchReddit_all_or_nothing found_env "Dune" "selling Dune" (sample_world None)).
  - apply (bool_decide_unpack _). by vm_compute.
  - intros t. exact I.
Defined.

Lemma empty_piece_keeps_every_row_witness :
  each_row "Dune " 0 [couch_row] [] = craigslistResult <$> take 8 [couch_row].
Proof.
  apply (empty_piece_keeps_every_row "Dune " [couch_row]).
  right. right. left. by exists "Dune".
Defined.

Lemma rows_without_href_collapse_witness :
  (∀ r, r ∈ each_row "book" 0 [couch_row; lamp_row] [] →
        link r = "https://craigslist.orgundefined")
  ∧ (length (uniqueByLink (each_row "book" 0 [couch_row; lamp_row] [])) ≤ 1)%nat.
Proof.
  apply (rows_without_href_collapse "book" [couch_row; lamp_row]).
  by repeat constructor.
Defined.

Lemma saveNotifications_round_trip_witness :
  ∃ w',
    saveNotifications found_env "u1" "Dune"
      [craigslistResult dune_row_1; craigslistResult lamp_row] (sample_world None)
    = (Ok tt, w')
    ∧ notifs w' !! "b" = Some (notification_for found_env "u1" "Dune" 1714554000000
                                 (craigslistResult lamp_row) (clock w'))
    ∧ next_id w' = 2%nat.
Proof.
  destruct (saveNotifications_round_trip found_env "u1" "Dune"
              [craigslistResult dune_row_1; craigslistResult lamp_row] (sample_world None))
    as (w' & Hrun & Hin & _ & _ & _ & _ & Hnext).
  - apply (bool_decide_unpack _). by vm_compute.
  - exists w'. split; [exact Hrun|]. split; [|exact Hnext].
    by destruct (Hin 1%nat (craigslistResult lamp_row) eq_refl) as [Hlookup _].
Defined.

Lemma found_results_notify_once_witness :
  ∃ w',
    processBook found_env "u1" sample_user ("b1", sample_book None) (sample_world None)
    = (Ok tt, w')
    ∧ outbox w' = [mkMail "reader@example.org" "Reader" "Dune" [craigslistResult dune_row_1]]
    ∧ ∃ n, notifs w' !! "a" = Some n ∧ n_link n = "https://craigslist.org/d/1.html"
           ∧ n_read n = false.
Proof.
  destruct (found_results_notify_once found_env "u1" sample_user "b1" (sample_book None)
              (sample_world None) [craigslistResult dune_row_1]
              (searchAllPlatforms found_env "Dune" None (sample_world None)).2)
    as (w' & Hrun & Hout & Hin & _).
  - by vm_compute.
  - by vm_compute.
  - by vm_compute.
  - done.
  - by vm_compute.
  - apply (bool_decide_unpack _). by vm_compute.
  - exists w'. split; [exact Hrun|]. split; [exact Hout|].
    destruct (Hin 0%nat (craigslistResult dune_row_1) eq_refl)
      as (n & Hn & _ & _ & _ & _ & _ & Hlink & Hread).
    exists n. by repeat split.
Defined.

Lemma processed_book_is_skipped_next_witness :
  ∃ w' book',
    processBook quiet_env "u1" sample_user ("b1", sample_book None) (sample_world None)
    = (Ok tt, w')
    ∧ books w' !! "b1" = Some book'
    ∧ lastSearched book' = Some "2024-05-01T09:00:01.500Z"
    ∧ processBook quiet_env "u1" sample_user ("b1", book') w'
      = (Ok tt, set_trace (trace w' ++ [EvLog "Skipping - searched recently"]) w').
Proof.
  destruct (processed_book_is_skipped_next quiet_env "u1" sample_user "b1" (sample_book None)
              (sample_world None) []
              (searchAllPlatforms quiet_env "Dune" None (sample_world None)).2)
    as (w' & book' & Hrun & Hb & Hlast & Hskip).
  - by vm_compute.
  - by vm_compute.
  - by vm_compute.
  - by left.
  - by vm_compute.
  - by vm_compute.
  - by vm_compute.
  - exists w', book'. split; [exact Hrun|]. split; [exact Hb|]. split; [|exact Hskip].
    rewrite Hlast. by vm_compute.
Defined.

Lemma dailyBookSearch_spares_other_users_witness :
  ∃ w', dailyBookSearch quiet_env two_readers_world = (Ok tt, w')
        ∧ books w' !! "b2" = Some (mkBook "Emma" None "u2" None).
Proof.
  apply (dailyBookSearch_spares_other_users quiet_env two_readers_world "b2").
  - by vm_compute.
  - intros (u & Hu & Hn). vm_compute in Hu. injection Hu as <-. discriminate.
Defined.

Lemma dailyBookSearch_without_subscribers_witness :
  (dailyBookSearch quiet_env (sweep_world 0)).1 = Ok tt
  ∧ trace (dailyBookSearch quiet_env (sweep_world 0)).2
    = [EvLog "Starting daily book search..."; EvQuery "users";
       EvLog "Found users with notifications enabled";
       EvLog "Daily book search completed"].
Proof.
  rewrite (dailyBookSearch_without_subscribers quiet_env (sweep_world 0)); [done|].
  intros uid (u & Hu & _). cbn [users sweep_world] in Hu. by rewrite lookup_empty in Hu.
Defined.

Lemma sweep_clears_when_under_cap_witness :
  ∃ w',
    cleanupOldNotifications quiet_env (sweep_world 3) = (Ok tt, w')
    ∧ expired 1711962000000 (notifs w') = ∅
    ∧ notifs w' !! "fresh" = Some (sample_notification 1714550400000).
Proof.
  destruct (sweep_clears_when_under_cap quiet_env (sweep_world 3))
    as (w' & Hrun & Hnone & Hlookup).
  - apply Nat.leb_le. by vm_compute.
  - exists w'. split; [exact Hrun|]. split; [exact Hnone|].
    rewrite Hlookup. by vm_compute.
Defined.

Lemma searchReddit_results_shape_witness :
  condition (redditResult
               (mkPostData "Dune for sale $10.50" None false "public" "books" "/r/books/1" "bob"))
  = None.
Proof.
  apply (searchReddit_results_shape reddit_only_env "Dune" (sample_world None)).
  apply (bool_decide_unpack _). by vm_compute.
Defined.

Lemma searchReddit_three_requests_witness :
  ∃ out w',
    searchReddit reddit_only_env "Dune" (sample_world None) = (Ok out, w')
    ∧ trace w'
      = [EvHttpReddit "Dune for sale"; EvSleep 500;
         EvHttpReddit "selling Dune"; EvSleep 500;
         EvHttpReddit "Dune book sale"; EvSleep 500]
    ∧ 1714554000000 + 1500 ≤ clock w'.
Proof.
  apply (searchReddit_three_requests reddit_only_env "Dune" (sample_world None)).
  intros t term _. eexists. split; [reflexivity|].
  intros posts post [= <-] Hpost%list_elem_of_singleton. by subst post.
Defined.


Lemma getUserBooks_own_books_latest_first_witness :
  ∃ l,
    getUserBooks sample_client_env "u1" sample_client = (Done l, sample_client)
    ∧ ("k2", mkBookData "Emma" None "2024-04-15" "u1") ∈ l
    ∧ (("k3", mkBookData "Ulysses" None "2024-04-01" "u2") ∉ l)
    ∧ StronglySorted addedDate_desc l.
Proof.
  destruct (getUserBooks_own_books_latest_first sample_client_env "u1" sample_client)
    as [_ Haccepted].
  destruct (Haccepted eq_refl) as (l & Hrun & Hin & _ & Hsorted).
  exists l. split; [exact Hrun|]. split; [|split; [|exact Hsorted]].
  - apply Hin. split; [|done]. unfold sample_client. cbn [c_books].
    rewrite lookup_insert_ne; [|done]. apply lookup_insert_eq.
  - intros Hk3. apply Hin in Hk3 as [_ Howner]. discriminate Howner.
Defined.

Lemma addBook_then_listed_witness :
  ∃ c' l,
    addBook sample_client_env "u1" (mkBookInput "Persuasion" None "1999-01-01") sample_client
    = (Done ("a", mkBookData "Persuasion" None "2024-05-01" "u1"), c')
    ∧ getUserBooks sample_client_env "u1" c' = (Done l, c')
    ∧ ("a", mkBookData "Persuasion" None "2024-05-01" "u1") ∈ l.
Proof.
  destruct (addBook_then_listed sample_client_env "u1"
              (mkBookInput "Persuasion" None "1999-01-01") sample_client)
    as [_ Haccepted].
  destruct (Haccepted eq_refl) as (c' & l & Hrun & _ & _ & Hlist & Hin).
  exists c', l. split; [|split; [exact Hlist|]].
  - rewrite Hrun. by vm_compute.
  - assert (Hsame : (client_auto_id sample_client_env (c_next_id sample_client),
                     mkBookData "Persuasion" None (today sample_client_env sample_client) "u1")
                    = ("a", mkBookData "Persuasion" None "2024-05-01" "u1"))
      by by vm_compute.
    by rewrite <- Hsame.
Defined.

Lemma removeBook_any_owner_witness :
  (∃ c',
     removeBook sample_client_env "k3/" sample_client = (Done tt, c')
     ∧ c_books c' !! "k3" = None
     ∧ c_books c' !! "k1" = Some (mkBookData "Dune" (Some "Herbert") "2024-03-01" "u1"))
  ∧ removeBook sample_client_env "k1/x" sample_client
    = (Failed "Failed to remove book", sample_client)
  ∧ removeBook sample_client_env "" sample_client
    = (Failed "Failed to remove book", sample_client).
Proof.
  split; [|split].
  - destruct (removeBook_any_owner sample_client_env "k3/" sample_client)
      as (_ & Hremoved & _).
    destruct (Hremoved "k3" eq_refl eq_refl eq_refl) as (c' & Hrun & Hgone & Hkept & _).
    exists c'. split; [exact Hrun|]. split; [exact Hgone|].
    rewrite Hkept; [|done]. unfold sample_client. cbn [c_books]. apply lookup_insert_eq.
  - apply (removeBook_any_owner sample_client_env "k1/x" sample_client). right. by left.
  - apply (removeBook_any_owner sample_client_env "" sample_client). right. by left.
Defined.
